(** * SliceOSM API server: a shallow embedding of [main.go]

    The development follows the source file top to bottom:

    - [GoInt]: the 64-bit [int] of the Go runtime, wrap-around written out;
    - [F64]: the [float64] values the estimator computes with;
    - [Estimator]: [GetPixel] and [GetSum];
    - [Validator]: [parseInput];
    - [Srv]: the [Server] state, [runTask], [worker] and [ServeHTTP],
      cut into the atomic blocks that the locks and the channel delimit;
    - [Scenario]: one concrete server, on which the handlers and the worker
      are run.

    External packages ([orb], [encoding/json], [time], [strings.TrimSpace])
    are not part of the repository: every call into them is a parameter of
    the section that uses it.  [strings.Split] and [filepath.Join] are
    written out, the latter with the lexical cleaning of [filepath.Clean].
    What the clock, the file system and the subprocess answer during one
    call is a field of the records [Oracle] and [Run]; a system call that
    can fail has its failure there, with what the failure leaves behind. *)

From Stdlib Require Import ZArith QArith Qround Lia List String Ascii Bool.
From stdpp Require Import gmap strings list.

Local Open Scope Z_scope.

(** ** Go's [int] on a 64-bit platform *)

Module GoInt.

Definition min_int : Z := - 2 ^ 63.
Definition max_int : Z := 2 ^ 63 - 1.

(** Two's complement wrap-around of an unbounded result. *)
Definition wrap (n : Z) : Z := (n + 2 ^ 63) mod 2 ^ 64 - 2 ^ 63.

Definition add (a b : Z) : Z := wrap (a + b).
Definition sub (a b : Z) : Z := wrap (a - b).
Definition mul (a b : Z) : Z := wrap (a * b).

(** [a << n]: a negative shift count panics, a count of 64 or more
    shifts every bit out. *)
Definition shl (a n : Z) : option Z :=
  if n <? 0 then None else Some (wrap (a * 2 ^ n)).

Definition in_range (n : Z) : Prop := min_int <= n <= max_int.

Lemma wrap_id n : in_range n -> wrap n = n.
Proof.
  unfold in_range, min_int, max_int, wrap. intros H.
  rewrite Z.mod_small; lia.
Qed.

Lemma wrap_in_range n : in_range (wrap n).
Proof.
  unfold in_range, min_int, max_int, wrap.
  pose proof (Z.mod_pos_bound (n + 2 ^ 63) (2 ^ 64) ltac:(lia)). lia.
Qed.

End GoInt.

(** ** [float64]

    Finite values are exact rationals, next to the IEEE infinities and NaN;
    rounding is not modelled.  The estimator only ever adds integers and
    divides an integer by a power of two, so within the ranges stated with
    each theorem every intermediate value is a dyadic rational with fewer
    than 53 significant bits and the arithmetic of the hardware is exact
    (see [Estimator.GetPixel_representable]).  [float64(n)] is exact for
    an integer [n] of absolute value up to [2^53]; [of_int] is exact for
    every [n], so beyond that bound the model is no longer the hardware.
    Signed zeros are not distinguished: the only zero divisor of the source
    is [float64] of the integer [0], which is [+0]. *)

Module F64.

Inductive float64 : Type :=
| Finite (q : Q)
| Infinite (negative : bool)
| NaN.

Definition of_int (n : Z) : float64 := Finite (inject_Z n).

Definition is_neg (q : Q) : bool := (Qnum q <? 0)%Z.
Definition is_zero (q : Q) : bool := (Qnum q =? 0)%Z.

Definition fadd (a b : float64) : float64 :=
  match a, b with
  | NaN, _ | _, NaN => NaN
  | Finite p, Finite q => Finite (p + q)
  | Infinite s, Infinite t => if Bool.eqb s t then Infinite s else NaN
  | Infinite s, Finite _ | Finite _, Infinite s => Infinite s
  end.

Definition fmul (a b : float64) : float64 :=
  match a, b with
  | NaN, _ | _, NaN => NaN
  | Finite p, Finite q => Finite (p * q)
  | Infinite s, Infinite t => Infinite (xorb s t)
  | Infinite s, Finite q | Finite q, Infinite s =>
      if is_zero q then NaN else Infinite (xorb s (is_neg q))
  end.

Definition fdiv (a b : float64) : float64 :=
  match a, b with
  | NaN, _ | _, NaN => NaN
  | Finite p, Finite q =>
      if is_zero q then (if is_zero p then NaN else Infinite (is_neg p))
      else Finite (p / q)
  | Infinite _, Infinite _ => NaN
  | Infinite s, Finite q => Infinite (xorb s (is_neg q))
  | Finite _, Infinite _ => Finite 0
  end.

(** [math.Floor] *)
Definition floor (a : float64) : float64 :=
  match a with
  | Finite q => Finite (inject_Z (Qfloor q))
  | _ => a
  end.

(** [int(f)]: truncation toward zero; out of range, infinite or NaN
    operands give the "integer indefinite" value of amd64. *)
Definition to_int (a : float64) : Z :=
  match a with
  | Finite q =>
      let t := if is_neg q then Qceiling q else Qfloor q in
      if (GoInt.min_int <=? t) && (t <=? GoInt.max_int) then t
      else GoInt.min_int
  | _ => GoInt.min_int
  end.

(** Equality of the values denoted (finite values up to [Qeq]). *)
Definition feq (a b : float64) : Prop :=
  match a, b with
  | Finite p, Finite q => Qeq p q
  | Infinite s, Infinite t => s = t
  | NaN, NaN => True
  | _, _ => False
  end.

(** [a > b] on floats: false as soon as a NaN is involved. *)
Definition fgt (a b : float64) : bool :=
  match a, b with
  | Finite p, Finite q => if Qlt_le_dec q p then true else false
  | Infinite false, Finite _ => true
  | Finite _, Infinite true => true
  | Infinite false, Infinite true => true
  | _, _ => false
  end.

Lemma feq_refl a : feq a a.
Proof. destruct a; simpl; auto. reflexivity. Qed.

Lemma feq_sym a b : feq a b -> feq b a.
Proof. destruct a, b; simpl; auto. intros H; symmetry; exact H. Qed.

Lemma feq_trans a b c : feq a b -> feq b c -> feq a c.
Proof.
  destruct a, b, c; simpl; try tauto; try congruence.
  intros H1 H2. rewrite H1. exact H2.
Qed.

Lemma fadd_finite p q : fadd (Finite p) (Finite q) = Finite (p + q).
Proof. reflexivity. Qed.

(** The operations do not tell equal rationals apart. *)
Lemma is_neg_comp p q : (p == q)%Q -> is_neg p = is_neg q.
Proof.
  unfold Qeq, is_neg. intros H.
  destruct (Z.ltb_spec (Qnum p) 0), (Z.ltb_spec (Qnum q) 0); try reflexivity; exfalso; nia.
Qed.

Lemma is_zero_comp p q : (p == q)%Q -> is_zero p = is_zero q.
Proof.
  unfold Qeq, is_zero. intros H.
  destruct (Z.eqb_spec (Qnum p) 0), (Z.eqb_spec (Qnum q) 0); try reflexivity; exfalso; nia.
Qed.

Lemma to_int_feq a b : feq a b -> to_int a = to_int b.
Proof.
  destruct a as [p| |], b as [q| |]; simpl; try tauto.
  intros H. rewrite (is_neg_comp p q H), (Qfloor_comp p q H), (Qceiling_comp p q H).
  reflexivity.
Qed.

Lemma fadd_feq a a' b b' : feq a a' -> feq b b' -> feq (fadd a b) (fadd a' b').
Proof.
  destruct a, a', b, b'; simpl; try tauto; intros H1 H2; subst; try reflexivity.
  - now rewrite H1, H2.
  - destruct (Bool.eqb _ _); simpl; auto.
Qed.

Lemma fmul_feq a a' b b' : feq a a' -> feq b b' -> feq (fmul a b) (fmul a' b').
Proof.
  destruct a, a', b, b'; simpl; try tauto; intros H1 H2; subst;
    try reflexivity.
  - now rewrite H1, H2.
  - rewrite (is_zero_comp _ _ H1), (is_neg_comp _ _ H1). destruct (is_zero _); simpl; auto.
  - rewrite (is_zero_comp _ _ H2), (is_neg_comp _ _ H2). destruct (is_zero _); simpl; auto.
Qed.

Lemma fadd_comm a b : feq (fadd a b) (fadd b a).
Proof.
  destruct a as [p|s|], b as [q|t|]; simpl; auto; try apply Qplus_comm.
  destruct s, t; simpl; auto.
Qed.

Lemma fadd_assoc a b c : feq (fadd (fadd a b) c) (fadd a (fadd b c)).
Proof.
  destruct a as [p|s|], b as [q|t|], c as [r|u|]; simpl; auto;
    try (symmetry; apply Qplus_assoc);
    repeat match goal with b : bool |- _ => destruct b end; simpl; auto.
Qed.

End F64.

(** ** The node-count estimator: [GetPixel] and [GetSum] *)

Module Estimator.
Import F64.

(** [color.RGBA()]: four [uint32] channels, each within [0, 0xffff] by
    the contract of [color.Color] (see [wf_image]).  Products of a channel
    shifted right by 8 with 256 stay below [2^32] and never wrap. *)
Record RGBA : Type := { red : Z; green : Z; blue : Z; alpha : Z }.

(** [image.Image], through its only method used: [At(x, y).RGBA()]. *)
Definition Image : Type := Z -> Z -> RGBA.

(** [for i := lo; i < hi; i++ { acc = body i acc }] *)
Definition for_range {A : Type} (lo hi : Z) (body : Z -> A -> A) (init : A) : A :=
  fold_left (fun acc i => body i acc) (seqZ lo (hi - lo)) init.

Definition GetPixel (image : Image) (z x y : Z) : option float64 :=
  if z <? 12 then
    match GoInt.shl 2 (GoInt.sub (GoInt.sub 12 z) 1) with
    | None => None
    | Some dz =>
        Some
          (for_range (GoInt.mul x dz) (GoInt.add (GoInt.mul x dz) dz)
             (fun ix acc =>
                for_range (GoInt.mul y dz) (GoInt.add (GoInt.mul y dz) dz)
                  (fun iy acc =>
                     let color := image ix iy in
                     fadd acc
                       (fadd (of_int (Z.shiftr (red color) 8 * 256))
                             (of_int (Z.shiftr (green color) 8))))
                  acc)
             (Finite 0))
    end
  else if z =? 12 then
    let color := image x y in
    Some (fadd (of_int (Z.shiftr (red color) 8 * 256))
               (of_int (Z.shiftr (green color) 8)))
  else
    match GoInt.shl 2 (GoInt.sub (GoInt.sub z 12) 1) with
    | None => None
    | Some dz =>
        let x := to_int (floor (fdiv (of_int x) (of_int dz))) in
        let y := to_int (floor (fdiv (of_int y) (of_int dz))) in
        let color := image x y in
        Some (fdiv (of_int (Z.shiftr (red color) 8 * 256
                            + Z.shiftr (green color) 8))
                   (of_int (GoInt.mul dz dz)))
    end.

(** [maptile.Tile]: all three fields are [uint32] in the library. *)
Record Tile : Type := { tX : N; tY : N; tZ : N }.

(** [int(v)] of a [uint32] field. *)
Definition int_of_uint32 (v : N) : Z := Z.of_N v mod 2 ^ 32.

Section GetSum.

(** [orb.Geometry], and the keys of the map that
    [tilecover.Geometry(geom, zoom)] returns (its error is dropped by
    the source; Go ranges over the map in an unspecified order, the
    list fixes one). *)
Variable Geometry : Type.
Variable tilecover : Geometry -> Z -> list Tile.

(** [for z := z0; z <= 14; z++ { covering = ...; if len > 256 { break } }],
    [fuel] bounding the iterations left. *)
Fixpoint cover_loop (geom : Geometry) (fuel : nat) (z : Z)
                    (covering : list Tile) : list Tile :=
  match fuel with
  | O => covering
  | S fuel' =>
      let covering := tilecover geom z in
      if 256 <? Z.of_nat (length covering) then covering
      else cover_loop geom fuel' (z + 1) covering
  end.

(** [sum += GetPixel(image, int(t.Z), int(t.X), int(t.Y))]; a panic of
    [GetPixel] ends the sum. *)
Definition add_pixel (image : Image) (acc : option float64) (t : Tile)
  : option float64 :=
  match acc, GetPixel image (int_of_uint32 (tZ t)) (int_of_uint32 (tX t))
                      (int_of_uint32 (tY t)) with
  | Some sum, Some p => Some (fadd sum p)
  | _, _ => None
  end.

Definition sum_pixels (image : Image) (covering : list Tile) : option float64 :=
  fold_left (add_pixel image) covering (Some (Finite 0)).

Definition GetSum (image : Image) (geom : Geometry) : option Z :=
  let covering := cover_loop geom 15 0 [] in
  match sum_pixels image covering with
  | Some sum => Some (to_int (fmul sum (of_int 32)))
  | None => None
  end.

End GetSum.

(** *** Reference definitions, in the words of the specification *)

(** Raw value of a reference cell: high byte times 256 plus low byte. *)
Definition cell (image : Image) (x y : Z) : Z :=
  Z.shiftr (red (image x y)) 8 * 256 + Z.shiftr (green (image x y)) 8.

Definition Zsum (l : list Z) : Z := fold_right Z.add 0 l.

(** Sum of the raw values over the [n] by [n] block of reference cells
    whose corner is [(x0, y0)]. *)
Definition block_sum (image : Image) (x0 y0 n : Z) : Z :=
  Zsum (map (fun ix => Zsum (map (fun iy => cell image ix iy) (seqZ y0 n)))
            (seqZ x0 n)).


(** [densityAt(zoom, x, y)] as the specification words it, over the
    reference zoom 12. *)
Definition densityAt (image : Image) (z x y : Z) : Q :=
  if z <? 12 then
    inject_Z (block_sum image (x * 2 ^ (12 - z)) (y * 2 ^ (12 - z)) (2 ^ (12 - z)))
  else if z =? 12 then
    inject_Z (cell image x y)
  else
    (inject_Z (cell image (x / 2 ^ (z - 12)) (y / 2 ^ (z - 12)))
     / inject_Z (2 ^ (2 * (z - 12))))%Q.

(** *** Loops that add integers *)

(** A loop whose body adds the integer [g i] to a finite accumulator
    ends on the finite sum. *)
Lemma fold_finite_sum (body : Z -> float64 -> float64) (g : Z -> Z) (l : list Z) :
  (forall i q, exists q', body i (Finite q) = Finite q'
                          /\ (q' == q + inject_Z (g i))%Q) ->
  forall q, exists q',
    fold_left (fun acc i => body i acc) l (Finite q) = Finite q'
    /\ (q' == q + inject_Z (Zsum (map g l)))%Q.
Proof.
  intros Hbody. induction l as [|i l IH]; intros q; simpl.
  - exists q. split; [reflexivity|]. unfold inject_Z. ring.
  - destruct (Hbody i q) as (q1 & E1 & H1). rewrite E1.
    destruct (IH q1) as (q2 & E2 & H2). exists q2. split; [exact E2|].
    rewrite H2, H1, inject_Z_plus. ring.
Qed.

Lemma for_range_finite_sum (body : Z -> float64 -> float64) (g : Z -> Z) lo hi :
  (forall i q, exists q', body i (Finite q) = Finite q'
                          /\ (q' == q + inject_Z (g i))%Q) ->
  forall q, exists q',
    for_range lo hi body (Finite q) = Finite q'
    /\ (q' == q + inject_Z (Zsum (map g (seqZ lo (hi - lo)))))%Q.
Proof. intros Hbody q. unfold for_range. now apply fold_finite_sum. Qed.

Lemma add_cell (image : Image) ix iy q :
  exists q',
    fadd (Finite q)
         (fadd (of_int (Z.shiftr (red (image ix iy)) 8 * 256))
               (of_int (Z.shiftr (green (image ix iy)) 8))) = Finite q'
    /\ (q' == q + inject_Z (cell image ix iy))%Q.
Proof.
  eexists. split; [reflexivity|]. unfold cell. rewrite inject_Z_plus. reflexivity.
Qed.

(** *** Shifts and products that stay in range *)

Lemma pow2_le a b : 0 <= a <= b -> 2 ^ a <= 2 ^ b.
Proof. intros H. apply Z.pow_le_mono_r; lia. Qed.

Lemma shl_pow2 n : 0 <= n <= 61 -> GoInt.shl 2 n = Some (2 ^ (n + 1)).
Proof.
  intros H. unfold GoInt.shl.
  destruct (Z.ltb_spec n 0) as [?|_]; [lia|].
  f_equal. rewrite <- Z.pow_succ_r by lia. unfold Z.succ.
  apply GoInt.wrap_id. unfold GoInt.in_range, GoInt.min_int, GoInt.max_int.
  pose proof (pow2_le (n + 1) 62 ltac:(lia)).
  pose proof (Z.pow_pos_nonneg 2 (n + 1) ltac:(lia) ltac:(lia)).
  change (2 ^ 63) with (2 * 2 ^ 62). lia.
Qed.

Lemma sub_small a b :
  - 2 ^ 61 <= a <= 2 ^ 61 -> - 2 ^ 61 <= b <= 2 ^ 61 -> GoInt.sub a b = a - b.
Proof.
  intros Ha Hb. apply GoInt.wrap_id.
  unfold GoInt.in_range, GoInt.min_int, GoInt.max_int. lia.
Qed.

Lemma mul_small a d :
  - 2 ^ 50 < a < 2 ^ 50 -> 0 < d <= 2 ^ 12 -> GoInt.mul a d = a * d.
Proof.
  intros Ha Hd. apply GoInt.wrap_id.
  unfold GoInt.in_range, GoInt.min_int, GoInt.max_int.
  change (2 ^ 63) with (2 ^ 50 * 2 ^ 12 * 2). nia.
Qed.

Lemma add_small a d :
  - 2 ^ 50 < a < 2 ^ 50 -> 0 < d <= 2 ^ 12 -> GoInt.add (a * d) d = a * d + d.
Proof.
  intros Ha Hd. apply GoInt.wrap_id.
  unfold GoInt.in_range, GoInt.min_int, GoInt.max_int.
  change (2 ^ 63) with (2 ^ 50 * 2 ^ 12 * 2). nia.
Qed.

(** [int(math.Floor(float64(a) / float64(d)))] is the floor quotient. *)
Lemma floor_div a d :
  - 2 ^ 50 < a < 2 ^ 50 -> 0 < d ->
  to_int (floor (fdiv (of_int a) (of_int d))) = a / d.
Proof.
  intros Ha Hd. unfold fdiv, of_int, is_zero. simpl Qnum.
  destruct (Z.eqb_spec d 0) as [?|_]; [lia|].
  unfold floor. rewrite <- Zdiv_Qdiv. unfold to_int.
  rewrite Qfloor_Z, Qceiling_Z.
  assert (Hq : - 2 ^ 50 <= a / d < 2 ^ 50).
  { split.
    - apply Z.div_le_lower_bound; nia.
    - apply Z.div_lt_upper_bound; nia. }
  destruct (is_neg (inject_Z (a / d)));
    unfold GoInt.min_int, GoInt.max_int;
    (destruct (Z.leb_spec (- 2 ^ 63) (a / d)); [|lia]);
    (destruct (Z.leb_spec (a / d) (2 ^ 63 - 1)); [reflexivity|lia]).
Qed.

(** *** [GetPixel] against [densityAt] *)

Lemma GetPixel_coarse image z x y :
  0 <= z < 12 -> - 2 ^ 50 < x < 2 ^ 50 -> - 2 ^ 50 < y < 2 ^ 50 ->
  exists q,
    GetPixel image z x y = Some (Finite q)
    /\ (q == inject_Z (block_sum image (x * 2 ^ (12 - z)) (y * 2 ^ (12 - z))
                                 (2 ^ (12 - z))))%Q.
Proof.
  intros Hz Hx Hy. unfold GetPixel.
  destruct (Z.ltb_spec z 12) as [_|?]; [|lia].
  rewrite (sub_small 12 z) by lia. rewrite (sub_small (12 - z) 1) by lia.
  rewrite shl_pow2 by lia.
  replace (12 - z - 1 + 1) with (12 - z) by lia.
  set (d := 2 ^ (12 - z)).
  assert (Hd : 0 < d <= 2 ^ 12).
  { unfold d. split; [apply Z.pow_pos_nonneg; lia | apply pow2_le; lia]. }
  rewrite !mul_small by assumption. rewrite !add_small by assumption.
  assert (Hrow : forall ix q0, exists q1,
             for_range (y * d) (y * d + d)
               (fun iy acc =>
                  let color := image ix iy in
                  fadd acc
                    (fadd (of_int (Z.shiftr (red color) 8 * 256))
                          (of_int (Z.shiftr (green color) 8))))
               (Finite q0) = Finite q1
             /\ (q1 == q0 + inject_Z (Zsum (map (fun iy => cell image ix iy)
                                                (seqZ (y * d) d))))%Q).
  { intros ix q0.
    destruct (for_range_finite_sum
                (fun iy acc =>
                   let color := image ix iy in
                   fadd acc
                     (fadd (of_int (Z.shiftr (red color) 8 * 256))
                           (of_int (Z.shiftr (green color) 8))))
                (fun iy => cell image ix iy) (y * d) (y * d + d)
                (fun iy q1 => add_cell image ix iy q1) q0) as (q1 & E1 & H1).
    exists q1. split; [exact E1|].
    rewrite H1. replace (y * d + d - y * d) with d by lia. reflexivity. }
  destruct (for_range_finite_sum
              (fun ix acc =>
                 for_range (y * d) (y * d + d)
                   (fun iy acc =>
                      let color := image ix iy in
                      fadd acc
                        (fadd (of_int (Z.shiftr (red color) 8 * 256))
                              (of_int (Z.shiftr (green color) 8))))
                   acc)
              (fun ix => Zsum (map (fun iy => cell image ix iy) (seqZ (y * d) d)))
              (x * d) (x * d + d) Hrow 0%Q)
    as (q & E & H).
  exists q. split; [f_equal; exact E|].
  rewrite H. replace (x * d + d - x * d) with d by lia.
  unfold block_sum. ring.
Qed.

Lemma GetPixel_reference image x y :
  GetPixel image 12 x y = Some (Finite (inject_Z (Z.shiftr (red (image x y)) 8 * 256)
                                        + inject_Z (Z.shiftr (green (image x y)) 8))).
Proof. reflexivity. Qed.

Lemma GetPixel_fine image z x y :
  12 < z <= 43 -> - 2 ^ 50 < x < 2 ^ 50 -> - 2 ^ 50 < y < 2 ^ 50 ->
  GetPixel image z x y
  = Some (Finite (inject_Z (cell image (x / 2 ^ (z - 12)) (y / 2 ^ (z - 12)))
                  / inject_Z (2 ^ (2 * (z - 12))))).
Proof.
  intros Hz Hx Hy. unfold GetPixel.
  destruct (Z.ltb_spec z 12) as [?|_]; [lia|].
  destruct (Z.eqb_spec z 12) as [?|_]; [lia|].
  rewrite (sub_small z 12) by lia. rewrite (sub_small (z - 12) 1) by lia.
  rewrite shl_pow2 by lia.
  replace (z - 12 - 1 + 1) with (z - 12) by lia.
  set (d := 2 ^ (z - 12)).
  assert (Hd : 0 < d <= 2 ^ 31).
  { unfold d. split; [apply Z.pow_pos_nonneg; lia | apply pow2_le; lia]. }
  cbv zeta. rewrite !floor_div by lia.
  assert (Hdd : GoInt.mul d d = 2 ^ (2 * (z - 12))).
  { replace (2 * (z - 12)) with ((z - 12) + (z - 12)) by lia.
    rewrite Z.pow_add_r by lia. fold d.
    apply GoInt.wrap_id. unfold GoInt.in_range, GoInt.min_int, GoInt.max_int.
    change (2 ^ 63) with (2 ^ 31 * 2 ^ 31 * 2). nia. }
  rewrite Hdd. unfold fdiv, of_int, is_zero. simpl Qnum.
  assert (0 < 2 ^ (2 * (z - 12))) by (apply Z.pow_pos_nonneg; lia).
  destruct (Z.eqb_spec (2 ^ (2 * (z - 12))) 0) as [?|_]; [lia|].
  reflexivity.
Qed.

Lemma GetPixel_densityAt image z x y :
  0 <= z <= 43 -> - 2 ^ 50 < x < 2 ^ 50 -> - 2 ^ 50 < y < 2 ^ 50 ->
  exists q, GetPixel image z x y = Some (Finite q) /\ (q == densityAt image z x y)%Q.
Proof.
  intros Hz Hx Hy. unfold densityAt.
  destruct (Z.ltb_spec z 12) as [Hlt|Hge].
  - apply GetPixel_coarse; [lia | exact Hx | exact Hy].
  - destruct (Z.eqb_spec z 12) as [->|Hne].
    + rewrite GetPixel_reference. eexists. split; [reflexivity|].
      unfold cell. rewrite inject_Z_plus. reflexivity.
    + rewrite GetPixel_fine by lia. eexists. split; reflexivity.
Qed.

(** What the specification says of [GetPixel] at one zoom and one pair of
    coordinates, case by case. *)
Definition density_spec (image : Image) (z x y : Z) : Prop :=
  (z < 12 ->
   exists f, GetPixel image z x y = Some f
             /\ feq f (Finite (inject_Z (block_sum image (x * 2 ^ (12 - z))
                                                   (y * 2 ^ (12 - z))
                                                   (2 ^ (12 - z))))))
  /\ (z = 12 ->
      exists f, GetPixel image z x y = Some f
                /\ feq f (Finite (inject_Z (cell image x y))))
  /\ (z > 12 ->
      exists f, GetPixel image z x y = Some f
                /\ feq f (Finite (inject_Z (cell image (x / 2 ^ (z - 12))
                                                 (y / 2 ^ (z - 12)))
                                  / inject_Z (2 ^ (2 * (z - 12)))))).

(** C2, amended: for every zoom from 0 to 43 and coordinates of absolute
    value below 2^50, [GetPixel] is the sum of the raw cell values over
    the 2^(12-z) by 2^(12-z) block when z < 12, the raw cell value
    high-byte*256 + low-byte when z = 12, and the value of the cell at
    the floor quotients of x and y by 2^(z-12), divided by 2^(2*(z-12)),
    when z > 12. *)
Theorem GetPixel_density image z x y :
  0 <= z <= 43 -> - 2 ^ 50 < x < 2 ^ 50 -> - 2 ^ 50 < y < 2 ^ 50 ->
  density_spec image z x y.
Proof.
  intros Hz Hx Hy. unfold density_spec. repeat split.
  - intros Hlt.
    destruct (GetPixel_coarse image z x y ltac:(lia) Hx Hy) as (q & E & H).
    exists (Finite q). split; [exact E | exact H].
  - intros ->. rewrite GetPixel_reference. eexists. split; [reflexivity|].
    simpl. unfold cell. rewrite inject_Z_plus. reflexivity.
  - intros Hgt. rewrite GetPixel_fine by lia.
    eexists. split; [reflexivity | apply feq_refl].
Qed.

(** A raster whose every cell holds the raw value 256. *)
Definition flat_image : Image :=
  fun _ _ => {| red := 256; green := 0; blue := 0; alpha := 65535 |}.

Lemma GetPixel_density_witness : density_spec flat_image 14 2620 6331.
Proof. apply GetPixel_density; lia. Defined.

(** At zoom 44 the product [dz*dz] is [2^64], which wraps to 0: the
    division is by zero and the result is [+Inf], not the cell value
    divided by [2^64]. *)
Lemma GetPixel_zoom44 : GetPixel flat_image 44 0 0 = Some (Infinite false).
Proof. vm_compute. reflexivity. Qed.

(** C2 as stated, for every zoom, fails at zoom 44. *)
Lemma GetPixel_density_zoom44_fails : ~ density_spec flat_image 44 0 0.
Proof.
  intros (_ & _ & H). destruct (H ltac:(lia)) as (f & E & Hf).
  rewrite GetPixel_zoom44 in E. injection E as <-. exact Hf.
Qed.

(** The regression value of the test suite: a cell holding 3986 gives
    249.125 two zoom levels below. *)
Example GetPixel_regression image :
  cell image 655 1582 = 3986 ->
  exists f, GetPixel image 14 2620 6331 = Some f /\ feq f (Finite (249125 # 1000)).
Proof.
  intros Hc. rewrite GetPixel_fine by lia.
  eexists. split; [reflexivity|].
  change (2620 / 2 ^ (14 - 12)) with 655. change (6331 / 2 ^ (14 - 12)) with 1582.
  rewrite Hc. reflexivity.
Qed.

(** *** The float model is exact on the stated ranges *)

(** The channels of a 16-bit image. *)
Definition wf_image (image : Image) : Prop :=
  forall x y, 0 <= red (image x y) <= 65535 /\ 0 <= green (image x y) <= 65535.

(** A non-negative dyadic rational with a significand below [2^53]. *)
Definition representable (f : float64) : Prop :=
  exists m k, 0 <= m < 2 ^ 53 /\ 0 <= k <= 1022
              /\ feq f (Finite (inject_Z m / inject_Z (2 ^ k))).

Lemma cell_bound image x y : wf_image image -> 0 <= cell image x y <= 65535.
Proof.
  intros Hwf. destruct (Hwf x y) as [Hr Hg]. unfold cell.
  rewrite !Z.shiftr_div_pow2 by lia. change (2 ^ 8) with 256.
  assert (0 <= red (image x y) / 256 < 256).
  { split; [apply Z.div_pos; lia | apply Z.div_lt_upper_bound; lia]. }
  assert (0 <= green (image x y) / 256 < 256).
  { split; [apply Z.div_pos; lia | apply Z.div_lt_upper_bound; lia]. }
  lia.
Qed.

Lemma Zsum_bound (g : Z -> Z) (b : Z) (l : list Z) :
  (forall i, 0 <= g i <= b) ->
  0 <= Zsum (map g l) <= b * Z.of_nat (length l).
Proof.
  intros Hg. induction l as [|i l IH]; simpl; [lia|].
  specialize (Hg i). lia.
Qed.

Lemma block_sum_bound image x0 y0 n :
  wf_image image -> 0 <= n ->
  0 <= block_sum image x0 y0 n <= 65535 * n * n.
Proof.
  intros Hwf Hn. unfold block_sum.
  pose proof (Zsum_bound
                (fun ix => Zsum (map (fun iy => cell image ix iy) (seqZ y0 n)))
                (65535 * n) (seqZ x0 n)) as H.
  rewrite length_seqZ, Z2Nat.id in H by lia.
  apply H. intros ix.
  pose proof (Zsum_bound (fun iy => cell image ix iy) 65535 (seqZ y0 n)
                (fun iy => cell_bound image ix iy Hwf)) as H'.
  rewrite length_seqZ, Z2Nat.id in H' by lia. exact H'.
Qed.

(** X3: for a 16-bit raster, a zoom from 0 to 43 and coordinates of
    absolute value below 2^50, the value of [GetPixel] is a non-negative
    dyadic rational with a significand below 2^53: a [float64] holds it
    exactly, and no sum or quotient of the source is rounded. *)
Lemma GetPixel_representable image z x y :
  wf_image image ->
  0 <= z <= 43 -> - 2 ^ 50 < x < 2 ^ 50 -> - 2 ^ 50 < y < 2 ^ 50 ->
  exists f, GetPixel image z x y = Some f /\ representable f.
Proof.
  intros Hwf Hz Hx Hy.
  destruct (Z.lt_ge_cases z 12) as [Hlt|Hge].
  - destruct (GetPixel_coarse image z x y ltac:(lia) Hx Hy) as (q & E & H).
    exists (Finite q). split; [exact E|].
    exists (block_sum image (x * 2 ^ (12 - z)) (y * 2 ^ (12 - z)) (2 ^ (12 - z))), 0.
    pose proof (pow2_le (12 - z) 12 ltac:(lia)) as Hd.
    pose proof (Z.pow_pos_nonneg 2 (12 - z) ltac:(lia) ltac:(lia)) as Hd0.
    pose proof (block_sum_bound image (x * 2 ^ (12 - z)) (y * 2 ^ (12 - z))
                  (2 ^ (12 - z)) Hwf ltac:(lia)) as Hb.
    split; [|split; [lia|]].
    + change (2 ^ 53) with (2 ^ 29 * 2 ^ 12 * 2 ^ 12). nia.
    + simpl. rewrite H. change (inject_Z (2 ^ 0)) with 1%Q. field.
  - destruct (Z.eq_dec z 12) as [->|Hne].
    + rewrite GetPixel_reference. eexists. split; [reflexivity|].
      exists (cell image x y), 0. pose proof (cell_bound image x y Hwf).
      split; [lia|]. split; [lia|].
      simpl. unfold cell. rewrite inject_Z_plus.
      change (inject_Z (2 ^ 0)) with 1%Q. field.
    + rewrite GetPixel_fine by lia. eexists. split; [reflexivity|].
      exists (cell image (x / 2 ^ (z - 12)) (y / 2 ^ (z - 12))), (2 * (z - 12)).
      pose proof (cell_bound image (x / 2 ^ (z - 12)) (y / 2 ^ (z - 12)) Hwf).
      split; [lia|]. split; [lia|]. apply feq_refl.
Qed.

(** *** [GetPixel] does not panic on tiles *)

Lemma GetPixel_total image z x y :
  0 <= z < 2 ^ 32 -> exists f, GetPixel image z x y = Some f.
Proof.
  intros Hz. unfold GetPixel.
  destruct (Z.ltb_spec z 12) as [Hlt|Hge].
  - rewrite (sub_small 12 z) by lia. rewrite (sub_small (12 - z) 1) by lia.
    unfold GoInt.shl. destruct (Z.ltb_spec (12 - z - 1) 0); [lia|]. eauto.
  - destruct (Z.eqb_spec z 12) as [?|Hne]; [eauto|].
    rewrite (sub_small z 12) by lia. rewrite (sub_small (z - 12) 1) by lia.
    unfold GoInt.shl. destruct (Z.ltb_spec (z - 12 - 1) 0); [lia|]. eauto.
Qed.

Lemma int_of_uint32_range v : 0 <= int_of_uint32 v < 2 ^ 32.
Proof. unfold int_of_uint32. apply Z.mod_pos_bound. lia. Qed.

Lemma sum_pixels_total image covering :
  exists sum, sum_pixels image covering = Some sum.
Proof.
  unfold sum_pixels. generalize (Finite 0).
  induction covering as [|t rest IH]; intros acc; simpl; [eauto|].
  destruct (GetPixel_total image (int_of_uint32 (tZ t)) (int_of_uint32 (tX t))
              (int_of_uint32 (tY t)) (int_of_uint32_range _)) as [p ->].
  apply IH.
Qed.

(** *** The zoom that [GetSum] reaches *)

Section ZoomReached.

Variable Geometry : Type.
Variable tilecover : Geometry -> Z -> list Tile.

(** The covering at zoom [z] has more than 256 tiles. *)
Definition exceeds (geom : Geometry) (z : Z) : bool :=
  256 <? Z.of_nat (length (tilecover geom z)).

(** The first zoom, counting up from 0, whose covering exceeds the
    threshold; zoom 14 when none below 14 does. *)
Definition zoom_reached (geom : Geometry) : Z :=
  default 14 (find (exceeds geom) (seqZ 0 14)).

Lemma cover_loop_find geom n : forall z covering,
  cover_loop Geometry tilecover geom (S n) z covering
  = tilecover geom
      (default (z + Z.of_nat n) (find (exceeds geom) (seqZ z (Z.of_nat n)))).
Proof.
  induction n as [|n IH]; intros z covering.
  - simpl. rewrite Z.add_0_r. now destruct (256 <? _).
  - change (cover_loop Geometry tilecover geom (S (S n)) z covering)
      with (if exceeds geom z then tilecover geom z
            else cover_loop Geometry tilecover geom (S n) (z + 1)
                   (tilecover geom z)).
    rewrite seqZ_cons by lia. simpl find.
    destruct (exceeds geom z); [reflexivity|].
    rewrite IH. unfold Z.succ.
    replace (Z.pred (Z.of_nat (S n))) with (Z.of_nat n) by lia.
    replace (z + 1 + Z.of_nat n) with (z + Z.of_nat (S n)) by lia.
    reflexivity.
Qed.

Lemma cover_loop_reached geom :
  cover_loop Geometry tilecover geom 15 0 [] = tilecover geom (zoom_reached geom).
Proof. apply (cover_loop_find geom 14 0 []). Qed.

Lemma find_seqZ_first (P : Z -> bool) n : forall z r,
  find P (seqZ z (Z.of_nat n)) = Some r ->
  z <= r < z + Z.of_nat n /\ P r = true
  /\ forall z', z <= z' < r -> P z' = false.
Proof.
  induction n as [|n IH]; intros z r.
  - simpl. discriminate.
  - rewrite seqZ_cons by lia. simpl find.
    replace (Z.pred (Z.of_nat (S n))) with (Z.of_nat n) by lia.
    destruct (P z) eqn:Hz.
    + intros [= <-]. repeat split; try lia. exact Hz.
    + intros Hf. destruct (IH _ _ Hf) as (Hr & Hp & Hlow). unfold Z.succ in *.
      repeat split; try lia; [exact Hp|].
      intros z' Hz'. destruct (Z.eq_dec z' z) as [->|?]; [exact Hz|].
      apply Hlow. lia.
Qed.

Lemma find_seqZ_none (P : Z -> bool) n : forall z,
  find P (seqZ z (Z.of_nat n)) = None ->
  forall z', z <= z' < z + Z.of_nat n -> P z' = false.
Proof.
  induction n as [|n IH]; intros z; [intros _ z' ?; lia|].
  rewrite seqZ_cons by lia. simpl find.
  replace (Z.pred (Z.of_nat (S n))) with (Z.of_nat n) by lia.
  destruct (P z) eqn:Hz; [discriminate|].
  intros Hf z' Hz'. destruct (Z.eq_dec z' z) as [->|?]; [exact Hz|].
  apply (IH _ Hf). unfold Z.succ. lia.
Qed.

(** The zoom reached lies between 0 and 14, no zoom below it exceeds
    the threshold, and it is 14 unless its own covering does. *)
Lemma zoom_reached_spec geom :
  0 <= zoom_reached geom <= 14
  /\ (forall z, 0 <= z < zoom_reached geom -> exceeds geom z = false)
  /\ (zoom_reached geom = 14 \/ exceeds geom (zoom_reached geom) = true).
Proof.
  unfold zoom_reached.
  destruct (find (exceeds geom) (seqZ 0 14)) as [r|] eqn:Hf; simpl.
  - destruct (find_seqZ_first (exceeds geom) 14 0 r Hf) as (Hr & Hp & Hlow).
    repeat split; try lia; auto.
  - repeat split; try lia; auto.
    intros z Hz. apply (find_seqZ_none (exceeds geom) 14 0 Hf). lia.
Qed.

(** [GetSum] is 32 times the sum of [GetPixel] over the covering at the
    zoom reached, truncated. *)
Lemma GetSum_reached image geom :
  GetSum Geometry tilecover image geom
  = match sum_pixels image (tilecover geom (zoom_reached geom)) with
    | Some sum => Some (to_int (fmul sum (of_int 32)))
    | None => None
    end.
Proof. unfold GetSum. now rewrite cover_loop_reached. Qed.

Lemma GetSum_total image geom :
  exists n, GetSum Geometry tilecover image geom = Some n.
Proof.
  unfold GetSum.
  destruct (sum_pixels_total image (cover_loop Geometry tilecover geom 15 0 []))
    as [sum ->].
  eauto.
Qed.

End ZoomReached.

(** *** Sums that [float64] holds exactly

    The tiles of one zoom have values over one power of two: integers up
    to zoom 12, multiples of [1/4^(z-12)] above.  The sum of a few thousand
    of them keeps a numerator below [2^53], so that no addition of the loop
    of [GetSum] rounds. *)

Definition denominator (z : Z) : Z := 2 ^ (2 * Z.max 0 (z - 12)).

Lemma denominator_nonzero z : ~ (inject_Z (denominator z) == 0)%Q.
Proof.
  assert (0 < denominator z) by (apply Z.pow_pos_nonneg; lia).
  intros E. unfold Qeq, inject_Z in E. simpl in E. lia.
Qed.

Lemma GetPixel_scaled image z x y :
  wf_image image ->
  0 <= z <= 14 -> - 2 ^ 50 < x < 2 ^ 50 -> - 2 ^ 50 < y < 2 ^ 50 ->
  exists q m,
    GetPixel image z x y = Some (Finite q)
    /\ (q == inject_Z m / inject_Z (denominator z))%Q
    /\ 0 <= m <= 65535 * 2 ^ 24.
Proof.
  intros Hwf Hz Hx Hy.
  destruct (GetPixel_densityAt image z x y ltac:(lia) Hx Hy) as (q & E & Hq).
  exists q. unfold densityAt in Hq. unfold denominator.
  destruct (Z.ltb_spec z 12) as [Hlt|Hge].
  - exists (block_sum image (x * 2 ^ (12 - z)) (y * 2 ^ (12 - z)) (2 ^ (12 - z))).
    split; [exact E|]. rewrite Z.max_l by lia. split.
    + rewrite Hq. change (inject_Z (2 ^ (2 * 0))) with 1%Q. field.
    + pose proof (pow2_le (12 - z) 12 ltac:(lia)) as Hd.
      pose proof (Z.pow_pos_nonneg 2 (12 - z) ltac:(lia) ltac:(lia)) as Hd0.
      pose proof (block_sum_bound image (x * 2 ^ (12 - z)) (y * 2 ^ (12 - z))
                    (2 ^ (12 - z)) Hwf ltac:(lia)) as Hb.
      change (2 ^ 24) with (2 ^ 12 * 2 ^ 12). nia.
  - destruct (Z.eqb_spec z 12) as [->|Hne].
    + exists (cell image x y). split; [exact E|]. split.
      * rewrite Hq. change (inject_Z (2 ^ (2 * Z.max 0 (12 - 12)))) with 1%Q. field.
      * pose proof (cell_bound image x y Hwf). lia.
    + exists (cell image (x / 2 ^ (z - 12)) (y / 2 ^ (z - 12))).
      split; [exact E|]. rewrite Z.max_r by lia. split; [exact Hq|].
      pose proof (cell_bound image (x / 2 ^ (z - 12)) (y / 2 ^ (z - 12)) Hwf). lia.
Qed.

(** Adding the tiles of one zoom to a multiple of their common unit gives
    a multiple of it, larger by at most [65535 * 2^24] for each tile. *)
Lemma fold_pixels_exact image z l :
  wf_image image -> 0 <= z <= 14 ->
  Forall (fun t => int_of_uint32 (tZ t) = z) l ->
  forall q0 m0,
    (q0 == inject_Z m0 / inject_Z (denominator z))%Q ->
    exists q m,
      fold_left (add_pixel image) l (Some (Finite q0)) = Some (Finite q)
      /\ (q == inject_Z m / inject_Z (denominator z))%Q
      /\ m0 <= m <= m0 + 65535 * 2 ^ 24 * Z.of_nat (length l).
Proof.
  intros Hwf Hz Hl. induction Hl as [|t l Ht _ IH]; intros q0 m0 H0.
  - exists q0, m0. split; [reflexivity|]. split; [exact H0 | simpl; lia].
  - pose proof (int_of_uint32_range (tX t)) as Hx.
    pose proof (int_of_uint32_range (tY t)) as Hy.
    destruct (GetPixel_scaled image z (int_of_uint32 (tX t)) (int_of_uint32 (tY t))
                Hwf Hz) as (q1 & m1 & E1 & H1 & Hm1);
      [change (2 ^ 50) with (2 ^ 32 * 2 ^ 18); lia
      |change (2 ^ 50) with (2 ^ 32 * 2 ^ 18); lia|].
    cbn [fold_left]. unfold add_pixel at 2. rewrite Ht, E1. cbn [fadd].
    destruct (IH (q0 + q1)%Q (m0 + m1)) as (q & m & E & H & Hm).
    { rewrite H0, H1, inject_Z_plus. field. apply denominator_nonzero. }
    exists q, m. split; [exact E|]. split; [exact H|].
    rewrite length_cons, Nat2Z.inj_succ. lia.
Qed.

(** The sum over up to 8192 tiles of one zoom is held exactly. *)
Lemma sum_pixels_representable image z l :
  wf_image image -> 0 <= z <= 14 ->
  Forall (fun t => int_of_uint32 (tZ t) = z) l ->
  Z.of_nat (length l) <= 8192 ->
  exists s, sum_pixels image l = Some s /\ representable s.
Proof.
  intros Hwf Hz Hl Hlen.
  destruct (fold_pixels_exact image z l Hwf Hz Hl 0%Q 0) as (q & m & E & H & Hm).
  { unfold Qdiv. ring. }
  exists (Finite q). split; [exact E|].
  exists m, (2 * Z.max 0 (z - 12)). split; [|split; [lia | exact H]].
  split; [lia|]. change (2 ^ 53) with (65536 * 2 ^ 24 * 8192). nia.
Qed.

(** *** The order of the covering

    Go ranges over the covering, a map, in an order it does not specify;
    [tilecover] fixes one as a list.  When the sum is one that [float64]
    holds exactly, whatever the order, the estimate is the same for every
    order. *)

(** Equality of the values denoted, for a sum that may have panicked. *)
Definition ofeq (a b : option float64) : Prop :=
  match a, b with
  | Some x, Some y => feq x y
  | None, None => True
  | _, _ => False
  end.

Lemma ofeq_refl a : ofeq a a.
Proof. destruct a; simpl; auto using feq_refl. Qed.

Lemma ofeq_trans a b c : ofeq a b -> ofeq b c -> ofeq a c.
Proof. destruct a, b, c; simpl; try tauto. apply feq_trans. Qed.

Lemma add_pixel_feq image a a' t :
  ofeq a a' -> ofeq (add_pixel image a t) (add_pixel image a' t).
Proof.
  unfold add_pixel. destruct a, a'; simpl; try tauto.
  destruct (GetPixel _ _ _ _); simpl; auto.
  intros H. apply fadd_feq; [exact H | apply feq_refl].
Qed.

Lemma add_pixel_swap image a t u :
  ofeq (add_pixel image (add_pixel image a t) u)
       (add_pixel image (add_pixel image a u) t).
Proof.
  unfold add_pixel. destruct a as [s|]; simpl.
  - destruct (GetPixel image (int_of_uint32 (tZ t)) (int_of_uint32 (tX t))
                (int_of_uint32 (tY t))) as [p|],
             (GetPixel image (int_of_uint32 (tZ u)) (int_of_uint32 (tX u))
                (int_of_uint32 (tY u))) as [q|]; simpl; auto.
    eapply feq_trans; [apply fadd_assoc|].
    eapply feq_trans; [|apply feq_sym, fadd_assoc].
    apply fadd_feq; [apply feq_refl | apply fadd_comm].
  - destruct (GetPixel image (int_of_uint32 (tZ t)) (int_of_uint32 (tX t))
                (int_of_uint32 (tY t))),
             (GetPixel image (int_of_uint32 (tZ u)) (int_of_uint32 (tX u))
                (int_of_uint32 (tY u))); simpl; auto.
Qed.

Lemma fold_pixels_feq image l : forall a a',
  ofeq a a' -> ofeq (fold_left (add_pixel image) l a) (fold_left (add_pixel image) l a').
Proof.
  induction l as [|t l IH]; intros a a' H; simpl; [exact H|].
  apply IH. now apply add_pixel_feq.
Qed.

Lemma fold_pixels_perm image l l' :
  Permutation l l' ->
  forall a, ofeq (fold_left (add_pixel image) l a) (fold_left (add_pixel image) l' a).
Proof.
  induction 1 as [|t l l' _ IH|t u l|l l' l'' _ IH1 _ IH2]; intros a; simpl.
  - apply ofeq_refl.
  - apply IH.
  - apply fold_pixels_feq. apply add_pixel_swap.
  - eapply ofeq_trans; [apply IH1 | apply IH2].
Qed.

Lemma sum_pixels_perm image l l' :
  Permutation l l' -> ofeq (sum_pixels image l) (sum_pixels image l').
Proof. intros H. apply (fold_pixels_perm image l l' H). Qed.

Section Order.

Variable Geometry : Type.
Variables tilecover tilecover' : Geometry -> Z -> list Tile.
Hypothesis same_tiles : forall g z, Permutation (tilecover g z) (tilecover' g z).

Lemma find_ext {A} (f g : A -> bool) l : (forall x, f x = g x) -> find f l = find g l.
Proof.
  intros H. induction l as [|x l IH]; simpl; [reflexivity|].
  rewrite H, IH. reflexivity.
Qed.

Lemma zoom_reached_perm g :
  zoom_reached Geometry tilecover g = zoom_reached Geometry tilecover' g.
Proof.
  unfold zoom_reached. f_equal. apply find_ext. intros z. unfold exceeds.
  now rewrite (Permutation_length (same_tiles g z)).
Qed.

Lemma GetSum_perm image g :
  GetSum Geometry tilecover image g = GetSum Geometry tilecover' image g.
Proof.
  rewrite !GetSum_reached, zoom_reached_perm.
  pose proof (sum_pixels_perm image _ _
                (same_tiles g (zoom_reached Geometry tilecover' g))) as H.
  destruct (sum_pixels image (tilecover g _)) as [s|],
           (sum_pixels image (tilecover' g _)) as [s'|]; simpl in H; try tauto.
  f_equal. apply to_int_feq. apply fmul_feq; [exact H | apply feq_refl].
Qed.

(** X2: on a 16-bit raster, when the covering at the zoom reached holds at
    most 8192 tiles, all of that zoom, the order in which Go ranges over it
    does not change the estimate: in either of two orders of the same tiles,
    the sum after any number of additions is a value that [float64] holds
    exactly, so that no addition rounds, and the two estimates are equal.
    (Without such a bound on the sum the additions of the hardware round,
    and the estimate can depend on the order.) *)
Theorem GetSum_order image g :
  wf_image image ->
  let zoom := zoom_reached Geometry tilecover g in
  (forall t, In t (tilecover g zoom) -> int_of_uint32 (tZ t) = zoom) ->
  Z.of_nat (length (tilecover g zoom)) <= 8192 ->
  (forall n, exists s, sum_pixels image (take n (tilecover g zoom)) = Some s
                       /\ representable s)
  /\ (forall n, exists s, sum_pixels image (take n (tilecover' g zoom)) = Some s
                          /\ representable s)
  /\ GetSum Geometry tilecover image g = GetSum Geometry tilecover' image g.
Proof.
  intros Hwf zoom Hzoom Hlen.
  destruct (zoom_reached_spec Geometry tilecover g) as (Hz & _). fold zoom in Hz.
  pose proof (same_tiles g zoom) as Hperm.
  assert (Hall : Forall (fun t => int_of_uint32 (tZ t) = zoom) (tilecover g zoom))
    by (apply List.Forall_forall; exact Hzoom).
  assert (Hall' : Forall (fun t => int_of_uint32 (tZ t) = zoom) (tilecover' g zoom)).
  { apply List.Forall_forall. intros t Ht. apply Hzoom.
    apply (Permutation_in t (Permutation_sym Hperm) Ht). }
  assert (Hlen' : Z.of_nat (length (tilecover' g zoom)) <= 8192)
    by (rewrite <- (Permutation_length Hperm); exact Hlen).
  split; [|split].
  - intros n. apply (sum_pixels_representable image zoom); try assumption.
    + now apply Forall_take.
    + rewrite length_take. lia.
  - intros n. apply (sum_pixels_representable image zoom); try assumption.
    + now apply Forall_take.
    + rewrite length_take. lia.
  - apply GetSum_perm.
Qed.
End Order.

(** *** One zoom level against the next *)

Lemma Zsum_app a b : Zsum (a ++ b) = Zsum a + Zsum b.
Proof. induction a as [|x a IH]; simpl; [reflexivity | rewrite IH; lia]. Qed.

Lemma Zsum_map_add (f g : Z -> Z) l :
  Zsum (map (fun i => f i + g i) l) = Zsum (map f l) + Zsum (map g l).
Proof. induction l as [|x l IH]; simpl; [reflexivity | rewrite IH; lia]. Qed.

(** A block of even side is the sum of its four quarters. *)
Lemma block_sum_split image x0 y0 n :
  0 <= n ->
  block_sum image x0 y0 (n + n)
  = block_sum image x0 y0 n + block_sum image x0 (y0 + n) n
    + block_sum image (x0 + n) y0 n + block_sum image (x0 + n) (y0 + n) n.
Proof.
  intros Hn. unfold block_sum.
  assert (Hrow : forall l,
            Zsum (map (fun ix => Zsum (map (fun iy => cell image ix iy)
                                           (seqZ y0 (n + n)))) l)
            = Zsum (map (fun ix => Zsum (map (fun iy => cell image ix iy)
                                             (seqZ y0 n))) l)
              + Zsum (map (fun ix => Zsum (map (fun iy => cell image ix iy)
                                               (seqZ (y0 + n) n))) l)).
  { intros l. rewrite <- Zsum_map_add. f_equal. apply map_ext. intros ix.
    rewrite seqZ_app by assumption. now rewrite map_app, Zsum_app. }
  rewrite Hrow. rewrite seqZ_app by assumption. rewrite !map_app, !Zsum_app. lia.
Qed.

Lemma block_sum_one image x0 y0 : block_sum image x0 y0 1 = cell image x0 y0.
Proof.
  unfold block_sum. rewrite !(seqZ_cons _ 1) by lia.
  rewrite !seqZ_nil by (simpl; lia). simpl. lia.
Qed.

Lemma densityAt_children image z x y :
  0 <= z ->
  (densityAt image z x y
   == densityAt image (z + 1) (2 * x) (2 * y)
      + densityAt image (z + 1) (2 * x) (2 * y + 1)
      + densityAt image (z + 1) (2 * x + 1) (2 * y)
      + densityAt image (z + 1) (2 * x + 1) (2 * y + 1))%Q.
Proof.
  intros Hz. unfold densityAt.
  destruct (Z.ltb_spec z 12) as [Hlt|Hge].
  - destruct (Z.ltb_spec (z + 1) 12) as [Hlt'|Hge'].
    + set (n := 2 ^ (12 - (z + 1))).
      assert (Hn : 0 <= n) by (apply Z.pow_nonneg; lia).
      replace (2 ^ (12 - z)) with (n + n).
      2:{ unfold n. replace (12 - z) with (Z.succ (12 - (z + 1))) by lia.
          rewrite Z.pow_succ_r by lia. lia. }
      rewrite block_sum_split by assumption. rewrite !inject_Z_plus.
      replace (2 * x * n) with (x * (n + n)) by lia.
      replace (2 * y * n) with (y * (n + n)) by lia.
      replace ((2 * x + 1) * n) with (x * (n + n) + n) by lia.
      replace ((2 * y + 1) * n) with (y * (n + n) + n) by lia.
      reflexivity.
    + assert (z = 11) as -> by lia. simpl Z.eqb. cbv iota.
      change (2 ^ (12 - 11)) with (1 + 1).
      rewrite block_sum_split by lia. rewrite !block_sum_one, !inject_Z_plus.
      replace (x * (1 + 1)) with (2 * x) by lia.
      replace (y * (1 + 1)) with (2 * y) by lia.
      reflexivity.
  - destruct (Z.ltb_spec (z + 1) 12) as [?|_]; [lia|].
    destruct (Z.eqb_spec (z + 1) 12) as [?|_]; [lia|].
    set (d := 2 ^ (z - 12)).
    assert (Hd : 0 < d) by (apply Z.pow_pos_nonneg; lia).
    assert (Hd' : 2 ^ (z + 1 - 12) = 2 * d).
    { unfold d. replace (z + 1 - 12) with (Z.succ (z - 12)) by lia.
      now rewrite Z.pow_succ_r by lia. }
    assert (Hq : forall a i, 0 <= i <= 1 -> (2 * a + i) / 2 ^ (z + 1 - 12) = a / d).
    { intros a i Hi. rewrite Hd'. rewrite <- Z.div_div by lia. f_equal.
      symmetry. apply (Z.div_unique (2 * a + i) 2 a i); lia. }
    rewrite (Hq x 1), (Hq y 1) by lia.
    replace (2 * x) with (2 * x + 0) by lia. replace (2 * y) with (2 * y + 0) by lia.
    rewrite (Hq x 0), (Hq y 0) by lia.
    set (v := inject_Z (cell image (x / d) (y / d))).
    assert (Hp : 2 ^ (2 * (z + 1 - 12)) = 4 * 2 ^ (2 * (z - 12))).
    { replace (2 * (z + 1 - 12)) with (2 + 2 * (z - 12)) by lia.
      rewrite Z.pow_add_r by lia. reflexivity. }
    rewrite Hp, inject_Z_mult.
    assert (Hnz : ~ inject_Z (2 ^ (2 * (z - 12))) == 0).
    { assert (0 < 2 ^ (2 * (z - 12))) by (apply Z.pow_pos_nonneg; lia).
      intros E. unfold Qeq, inject_Z in E. simpl in E. lia. }
    destruct (Z.eqb_spec z 12) as [->|Hne].
    + assert (Hv : v = inject_Z (cell image x y)).
      { unfold v, d. change (2 ^ (12 - 12)) with 1. now rewrite !Z.div_1_r. }
      rewrite <- Hv. change (2 ^ (2 * (12 - 12))) with 1.
      change (inject_Z 4 * inject_Z 1)%Q with (4 # 1)%Q. field.
    + field. exact Hnz.
Qed.

(** X1: the estimate of a tile is the sum of the estimates of its four
    children at the next zoom level, on either side of the reference zoom:
    what [GetPixel] counts in a region does not depend on the zoom at which
    the region is covered. *)
Theorem GetPixel_children image z x y :
  0 <= z <= 42 -> - 2 ^ 49 < x < 2 ^ 49 -> - 2 ^ 49 < y < 2 ^ 49 ->
  exists p c00 c01 c10 c11,
    GetPixel image z x y = Some (Finite p)
    /\ GetPixel image (z + 1) (2 * x) (2 * y) = Some (Finite c00)
    /\ GetPixel image (z + 1) (2 * x) (2 * y + 1) = Some (Finite c01)
    /\ GetPixel image (z + 1) (2 * x + 1) (2 * y) = Some (Finite c10)
    /\ GetPixel image (z + 1) (2 * x + 1) (2 * y + 1) = Some (Finite c11)
    /\ (p == c00 + c01 + c10 + c11)%Q.
Proof.
  intros Hz Hx Hy.
  assert (H50 : 2 ^ 50 = 2 * 2 ^ 49) by reflexivity.
  destruct (GetPixel_densityAt image z x y) as (p & Ep & Hp); try lia.
  destruct (GetPixel_densityAt image (z + 1) (2 * x) (2 * y)) as (c00 & E00 & H00);
    try lia.
  destruct (GetPixel_densityAt image (z + 1) (2 * x) (2 * y + 1))
    as (c01 & E01 & H01); try lia.
  destruct (GetPixel_densityAt image (z + 1) (2 * x + 1) (2 * y))
    as (c10 & E10 & H10); try lia.
  destruct (GetPixel_densityAt image (z + 1) (2 * x + 1) (2 * y + 1))
    as (c11 & E11 & H11); try lia.
  exists p, c00, c01, c10, c11. repeat split; try assumption.
  rewrite Hp, H00, H01, H10, H11. apply densityAt_children. lia.
Qed.

End Estimator.

(** ** The region validator: [parseInput]

    Go strings and byte slices ([json.RawMessage]) are both [string]: a
    sequence of bytes. *)

Module Validator.

Local Open Scope string_scope.

(** The content of a POST request. *)
Record Input : Type := {
  Name : string;
  RegionType : string;
  RegionData : string
}.

(** The messages of the errors [parseInput] returns. *)
Inductive error : Type :=
| ErrInvalidGeoJSON
| ErrNotEnoughRings
| ErrNotEnoughCoordinates
| ErrNot3Coordinates
| ErrInvalidRegionType
| ErrZeroArea.

Definition Error (e : error) : string :=
  match e with
  | ErrInvalidGeoJSON => "input GeoJSON is invalid"
  | ErrNotEnoughRings => "geom does not have enough rings"
  | ErrNotEnoughCoordinates => "ring does not have enough coordinates"
  | ErrNot3Coordinates => "input does not have >3 coordinates"
  | ErrInvalidRegionType => "invalid input RegionType"
  | ErrZeroArea => "Input has 0 area"
  end.

Section Geometry.

(** The coordinate type, [float64] in the source; the validator itself
    never computes with coordinates. *)
Variable coord : Type.

(** [orb.Point] is [[2]float64]: index 0 is the longitude. *)
Definition Point : Type := coord * coord.
Definition Ring : Type := list Point.
Definition Polygon : Type := list Ring.
Definition MultiPolygon : Type := list Polygon.
Record Bound : Type := { Min : Point; Max : Point }.

(** [orb.Geometry], a tagged union over the kinds of the library. *)
#[warnings="-register-all"]
Inductive Geometry : Type :=
| GPoint (p : Point)
| GMultiPoint (ps : list Point)
| GLineString (ps : list Point)
| GMultiLineString (ls : list (list Point))
| GRing (r : Ring)
| GPolygon (v : Polygon)
| GMultiPolygon (v : MultiPolygon)
| GCollection (gs : list Geometry)
| GBound (b : Bound).

(** [for _, ring := range v { if len(ring) < 4 { return ... } }] *)
Fixpoint check_rings (v : list Ring) : option error :=
  match v with
  | [] => None
  | ring :: rest =>
      if (length ring <? 4)%nat then Some ErrNotEnoughCoordinates
      else check_rings rest
  end.

Fixpoint check_polygons (v : list Polygon) : option error :=
  match v with
  | [] => None
  | polygon :: rest =>
      if (length polygon =? 0)%nat then Some ErrNotEnoughRings
      else match check_rings polygon with
           | Some e => Some e
           | None => check_polygons rest
           end
  end.

(** The type switch of lines 279-303. *)
Definition ring_checks (geom : Geometry) : option error :=
  match geom with
  | GPolygon v =>
      if (length v =? 0)%nat then Some ErrNotEnoughRings else check_rings v
  | GMultiPolygon v =>
      if (length v =? 0)%nat then Some ErrNotEnoughRings else check_polygons v
  | _ => None
  end.

(** The calls into [encoding/json], [orb/geojson] and [orb/planar]. *)
Variable geojson_Geometry : Type.
Variable Decode_Input : string -> option Input.
Variable UnmarshalGeometry : string -> option geojson_Geometry.
Variable Geometry_of : geojson_Geometry -> Geometry.
Variable MarshalJSON : geojson_Geometry -> string.
(** [json.Unmarshal(data, &coords)], error dropped: the slice it leaves. *)
Variable Unmarshal_coords : string -> list coord.
Variable Marshal_coords : list coord -> string.
Variable MultiPoint_Bound : list Point -> Bound.
(** [planar.Area(geom) == 0.0] *)
Variable Area_is_zero : Geometry -> bool.

(** Lines 273-315: the checks that depend on the region type, with the
    geometry and the sanitized payload they produce. *)
Definition parseRegion (input : Input) : Geometry * string + error :=
  if String.eqb (RegionType input) "geojson" then
    match UnmarshalGeometry (RegionData input) with
    | None => inr ErrInvalidGeoJSON
    | Some geojsonGeom =>
        let geom := Geometry_of geojsonGeom in
        match ring_checks geom with
        | Some e => inr e
        | None => inl (geom, MarshalJSON geojsonGeom)
        end
    end
  else if String.eqb (RegionType input) "bbox" then
    match Unmarshal_coords (RegionData input) with
    | c0 :: c1 :: c2 :: c3 :: _ =>
        inl (GBound (MultiPoint_Bound [(c1, c0); (c3, c2)]),
             Marshal_coords [c0; c1; c2; c3])
    | _ => inr ErrNot3Coordinates
    end
  else inr ErrInvalidRegionType.

(** What [parseInput] returns when its error is [nil]. *)
Record Parsed : Type := {
  geom : Geometry;
  sanitized_name : string;
  sanitized_type : string;
  sanitized_region : string
}.

Definition parseInput (body : string) : Parsed + error :=
  match Decode_Input body with
  | None => inr ErrInvalidGeoJSON
  | Some input =>
      match parseRegion input with
      | inr e => inr e
      | inl (geom, sanitizedData) =>
          if Area_is_zero geom then inr ErrZeroArea
          else inl {| geom := geom;
                      sanitized_name := Name input;
                      sanitized_type := RegionType input;
                      sanitized_region := sanitizedData |}
      end
  end.

(** *** Ring checks *)

Definition short (ring : Ring) : Prop := (length ring < 4)%nat.

(** The defects the specification lists: an empty polygon set, a
    polygon with an empty ring list, a ring with fewer than 4
    coordinates. *)
Definition defective (geom : Geometry) : Prop :=
  match geom with
  | GPolygon v => v = [] \/ Exists short v
  | GMultiPolygon v =>
      v = [] \/ Exists (fun polygon => polygon = [] \/ Exists short polygon) v
  | _ => False
  end.

Definition polygonal (geom : Geometry) : Prop :=
  match geom with
  | GPolygon _ | GMultiPolygon _ => True
  | _ => False
  end.

Lemma check_rings_some v e :
  check_rings v = Some e -> e = ErrNotEnoughCoordinates /\ Exists short v.
Proof.
  induction v as [|ring rest IH]; simpl; [discriminate|].
  destruct (Nat.ltb_spec (length ring) 4) as [Hlt|Hge].
  - intros [= <-]. split; [reflexivity|]. now apply Exists_cons_hd.
  - intros H. destruct (IH H) as [-> Hex]. split; [reflexivity|].
    now apply Exists_cons_tl.
Qed.

Lemma check_rings_none v : check_rings v = None -> ~ Exists short v.
Proof.
  induction v as [|ring rest IH]; simpl; intros H Hex.
  - inversion Hex.
  - destruct (Nat.ltb_spec (length ring) 4) as [Hlt|Hge]; [discriminate|].
    inversion Hex; subst; [unfold short in *; lia | now apply IH].
Qed.

Lemma check_polygons_some v e :
  check_polygons v = Some e ->
  (e = ErrNotEnoughRings \/ e = ErrNotEnoughCoordinates)
  /\ Exists (fun polygon => polygon = [] \/ Exists short polygon) v.
Proof.
  induction v as [|polygon rest IH]; simpl; [discriminate|].
  destruct polygon as [|ring rings] eqn:Hp.
  - simpl. intros [= <-]. split; [now left|]. apply Exists_cons_hd. now left.
  - rewrite <- Hp. replace (length polygon =? 0)%nat with false
      by (subst; reflexivity).
    destruct (check_rings polygon) as [e'|] eqn:Hr.
    + intros [= <-]. destruct (check_rings_some _ _ Hr) as [-> Hex].
      split; [now right|]. apply Exists_cons_hd. now right.
    + intros H. destruct (IH H) as [He Hex]. split; [exact He|].
      now apply Exists_cons_tl.
Qed.

Lemma check_polygons_none v :
  check_polygons v = None ->
  ~ Exists (fun polygon => polygon = [] \/ Exists short polygon) v.
Proof.
  induction v as [|polygon rest IH]; simpl; intros H Hex.
  - inversion Hex.
  - destruct polygon as [|ring rings] eqn:Hp; [discriminate|].
    rewrite <- Hp in *.
    replace (length polygon =? 0)%nat with false in H by (subst; reflexivity).
    destruct (check_rings polygon) as [e'|] eqn:Hr; [discriminate|].
    inversion Hex as [? ? [Hnil|Hsh]|]; subst.
    + discriminate.
    + now apply (check_rings_none _ Hr).
    + now apply IH.
Qed.

(** The type switch rejects exactly the defective polygons and
    multipolygons. *)
Lemma ring_checks_defective geom :
  (forall e, ring_checks geom = Some e ->
             (e = ErrNotEnoughRings \/ e = ErrNotEnoughCoordinates)
             /\ defective geom)
  /\ (ring_checks geom = None -> ~ defective geom).
Proof.
  destruct geom as [| | | | |v|v| |]; simpl;
    try (split; [discriminate | tauto]).
  - destruct v as [|ring rings] eqn:Hv.
    + split; [intros e [= <-]; auto | discriminate].
    + rewrite <- Hv.
      replace (length v =? 0)%nat with false by (subst; reflexivity).
      split.
      * intros e He. destruct (check_rings_some _ _ He) as [-> Hex]. auto.
      * intros Hn [Hnil|Hex]; [subst; discriminate|].
        now apply (check_rings_none _ Hn).
  - destruct v as [|polygon polygons] eqn:Hv.
    + split; [intros e [= <-]; auto | discriminate].
    + rewrite <- Hv.
      replace (length v =? 0)%nat with false by (subst; reflexivity).
      split.
      * intros e He. destruct (check_polygons_some _ _ He) as [Hor Hex]. auto.
      * intros Hn [Hnil|Hex]; [subst; discriminate|].
        now apply (check_polygons_none _ Hn).
Qed.

(** C5: a geojson submission whose geometry is a Polygon or a
    MultiPolygon fails validation when the polygon set is empty, when a
    contained polygon has no ring, or when a ring has fewer than 4
    coordinates; without any of these defects it passes the ring
    checks. *)
Theorem parseInput_ring_checks body input g :
  Decode_Input body = Some input ->
  RegionType input = "geojson" ->
  UnmarshalGeometry (RegionData input) = Some g ->
  polygonal (Geometry_of g) ->
  (defective (Geometry_of g) ->
   exists e, parseInput body = inr e
             /\ (e = ErrNotEnoughRings \/ e = ErrNotEnoughCoordinates))
  /\ (~ defective (Geometry_of g) ->
      ring_checks (Geometry_of g) = None
      /\ parseRegion input = inl (Geometry_of g, MarshalJSON g)).
Proof.
  intros Hd Ht Hu _. unfold parseInput, parseRegion.
  rewrite Hd, Ht, Hu. simpl String.eqb. cbv iota.
  destruct (ring_checks_defective (Geometry_of g)) as [Hsome Hnone].
  destruct (ring_checks (Geometry_of g)) as [e|] eqn:Hr.
  - destruct (Hsome e eq_refl) as [He Hdef]. split.
    + intros _. exists e. split; [reflexivity | exact He].
    + intros Hnd. contradiction.
  - split.
    + intros Hdef. exfalso. now apply Hnone.
    + intros _. split; reflexivity.
Qed.

(** *** Bounding boxes *)

(** C6: a bbox submission fails validation when its payload yields
    fewer than 4 numbers; otherwise the geometry is the bound of the two
    points [(coords[1], coords[0])] and [(coords[3], coords[2])], and
    the sanitized payload is the first 4 numbers serialized again. *)
Theorem parseInput_bbox body input :
  Decode_Input body = Some input ->
  RegionType input = "bbox" ->
  let coords := Unmarshal_coords (RegionData input) in
  ((length coords < 4)%nat -> parseInput body = inr ErrNot3Coordinates)
  /\ ((4 <= length coords)%nat ->
      exists c0 c1 c2 c3,
        firstn 4 coords = [c0; c1; c2; c3]
        /\ parseRegion input
           = inl (GBound (MultiPoint_Bound [(c1, c0); (c3, c2)]),
                  Marshal_coords (firstn 4 coords))
        /\ (Area_is_zero (GBound (MultiPoint_Bound [(c1, c0); (c3, c2)])) = false ->
            parseInput body
            = inl {| geom := GBound (MultiPoint_Bound [(c1, c0); (c3, c2)]);
                     sanitized_name := Name input;
                     sanitized_type := "bbox";
                     sanitized_region := Marshal_coords (firstn 4 coords) |})).
Proof.
  intros Hd Ht coords. unfold parseInput, parseRegion. rewrite Hd, Ht.
  simpl String.eqb. cbv iota. fold coords.
  destruct coords as [|c0 [|c1 [|c2 [|c3 rest]]]]; simpl length;
    (split; [intros Hlt; try reflexivity; lia | intros Hge; try lia]).
  exists c0, c1, c2, c3. simpl firstn. repeat split.
  intros Ha. rewrite Ha. reflexivity.
Qed.

(** *** The area check *)

(** C7: once the checks of its region type have passed, a submission
    fails validation if and only if the computed planar area of its
    geometry is zero, whatever the region type. *)
Theorem parseInput_area body input geom sanitizedData :
  Decode_Input body = Some input ->
  parseRegion input = inl (geom, sanitizedData) ->
  ((exists e, parseInput body = inr e) <-> Area_is_zero geom = true)
  /\ (Area_is_zero geom = true -> parseInput body = inr ErrZeroArea).
Proof.
  intros Hd Hr. unfold parseInput. rewrite Hd, Hr.
  destruct (Area_is_zero geom); split; try reflexivity.
  - split; [reflexivity | intros _; eexists; reflexivity].
  - split; [intros [e He]; discriminate | discriminate].
  - discriminate.
Qed.

(** *** What [parseInput] accepts *)

(** The submissions that pass the checks of their region type. *)
Definition acceptable (input : Input) (g : Geometry) : Prop :=
  (RegionType input = "geojson"
   /\ exists geojsonGeom,
        UnmarshalGeometry (RegionData input) = Some geojsonGeom
        /\ g = Geometry_of geojsonGeom /\ ~ defective g)
  \/ (RegionType input = "bbox"
      /\ exists c0 c1 c2 c3 rest,
           Unmarshal_coords (RegionData input) = c0 :: c1 :: c2 :: c3 :: rest
           /\ g = GBound (MultiPoint_Bound [(c1, c0); (c3, c2)])).

Lemma parseRegion_acceptable input g :
  (exists data, parseRegion input = inl (g, data)) <-> acceptable input g.
Proof.
  unfold parseRegion, acceptable.
  destruct (String.eqb_spec (RegionType input) "geojson") as [Hg|Hg].
  - destruct (UnmarshalGeometry (RegionData input)) as [geojsonGeom|].
    + destruct (ring_checks_defective (Geometry_of geojsonGeom)) as [Hsome Hnone].
      destruct (ring_checks (Geometry_of geojsonGeom)) as [e|]; split.
      * intros [data H]. discriminate.
      * intros [(_ & g' & [= <-] & -> & Hnd)|(Hb & _)].
        -- exfalso. apply Hnd. now apply (Hsome e).
        -- rewrite Hg in Hb. discriminate.
      * intros [data [= <- <-]]. left. split; [exact Hg|]. eauto.
      * intros [(_ & g' & [= <-] & -> & _)|(Hb & _)]; [eauto|].
        rewrite Hg in Hb. discriminate.
    + split; [intros [data H]; discriminate|].
      intros [(_ & g' & H & _)|(Hb & _)]; [discriminate|].
      rewrite Hg in Hb. discriminate.
  - destruct (String.eqb_spec (RegionType input) "bbox") as [Hb|Hb].
    + destruct (Unmarshal_coords (RegionData input)) as [|c0 [|c1 [|c2 [|c3 rest]]]];
        split; try (intros [data H]; discriminate);
        try (intros [(H & _)|(_ & ? & ? & ? & ? & ? & H & _)];
             [contradiction | discriminate]).
      * intros [data [= <- <-]]. right. split; [exact Hb|]. eauto 10.
      * intros [(H & _)|(_ & ? & ? & ? & ? & ? & [= <- <- <- <- <-] & ->)];
          [contradiction | eauto].
    + split; [intros [data H]; discriminate|].
      intros [(H & _)|(H & _)]; contradiction.
Qed.

(** X4: [parseInput] accepts a body exactly when it decodes, its region type is
    geojson with a geometry that parses and has no ring defect, or bbox with
    at least 4 numbers, and the area of the geometry is not zero; what it
    then returns is that geometry with the name and the region type of the
    submission, unchanged. *)
Theorem parseInput_accepts body :
  ((exists p, parseInput body = inl p)
   <-> exists input g,
         Decode_Input body = Some input /\ acceptable input g
         /\ Area_is_zero g = false)
  /\ (forall p, parseInput body = inl p ->
        exists input,
          Decode_Input body = Some input /\ acceptable input (geom p)
          /\ Area_is_zero (geom p) = false
          /\ sanitized_name p = Name input
          /\ sanitized_type p = RegionType input).
Proof.
  assert (Hfwd : forall p, parseInput body = inl p ->
            exists input,
              Decode_Input body = Some input /\ acceptable input (geom p)
              /\ Area_is_zero (geom p) = false
              /\ sanitized_name p = Name input
              /\ sanitized_type p = RegionType input).
  { intros p. unfold parseInput.
    destruct (Decode_Input body) as [input|]; [|discriminate].
    destruct (parseRegion input) as [[g data]|e] eqn:Hr; [|discriminate].
    destruct (Area_is_zero g) eqn:Ha; [discriminate|].
    intros [= <-]. exists input. simpl. repeat split; try assumption.
    apply parseRegion_acceptable. eauto. }
  split; [|exact Hfwd]. split.
  - intros [p Hp]. destruct (Hfwd p Hp) as (input & Hd & Hacc & Ha & _). eauto.
  - intros (input & g & Hd & Hacc & Ha).
    apply parseRegion_acceptable in Hacc as [data Hr].
    unfold parseInput. rewrite Hd, Hr, Ha. eauto.
Qed.

End Geometry.

End Validator.

(** ** The server: queue, workers, registry and handlers

    Every method of [Server] is cut at the points where another goroutine
    can observe or change the shared state: a channel operation, or a
    critical section of [progressMutex].  Each block is a function on
    [Server]; a method is the composition of its blocks, and an interleaving
    of goroutines is a composition of blocks of different methods. *)

Module Srv.
Import F64 Estimator Validator.

Local Open Scope string_scope.

(** Global system state, the document of [GET /api]. *)
Record SystemState : Type := {
  Status : string;
  QueueSize : Z;
  NodesLimit : Z;
  StateTimestamp : string
}.

Record Task : Type := {
  Uuid : string;
  SanitizedName : string;
  SanitizedRegionType : string;
  SanitizedRegionData : string
}.

Record Progress : Type := {
  Timestamp : string;
  CellsTotal : Z;
  CellsProg : Z;
  NodesTotal : Z;
  NodesProg : Z;
  ElemsTotal : Z;
  ElemsProg : Z;
  SizeBytes : Z;
  Elapsed : Q;
  Complete : bool
}.

(** [Progress{}] *)
Definition Progress_zero : Progress :=
  {| Timestamp := ""; CellsTotal := 0; CellsProg := 0; NodesTotal := 0;
     NodesProg := 0; ElemsTotal := 0; ElemsProg := 0; SizeBytes := 0;
     Elapsed := 0; Complete := false |}.

(** [time.Time] and [time.Duration], in nanoseconds. *)
Record LastUpdated : Type := { timestamp : Z; checkedAt : Z }.

(** The errors [runTask] returns, by the call that produced them. *)
Inductive run_error : Type :=
| ErrCreate
| ErrMarshalTask
| ErrWriteEcho
| ErrStart
| ErrDecode (line : string)
| ErrWait
| ErrOpen
| ErrStat
| ErrRename
| ErrRemove
| ErrMarshalProgress
| ErrWriteRecord.

(** What the process does to the outside: subprocesses launched and
    errors handed to Sentry. *)
Inductive event : Type :=
| Exec (name : string) (args : list string)
| CaptureException (e : run_error).

(** The [Server] struct, followed by the part of the outside world its
    methods act on: the file system (path to content) and the events
    emitted so far. *)
Record Server : Type := {
  progress : gmap string Progress;
  queue : list Task;
  filesDir : string;
  tmpDir : string;
  exec : string;
  data : string;
  image : Image;
  nodesLimit : Z;
  lastUpdated : LastUpdated;
  fs : gmap string string;
  events : list event
}.

Definition set_progress (f : gmap string Progress -> gmap string Progress)
                        (h : Server) : Server :=
  {| progress := f (progress h); queue := queue h; filesDir := filesDir h;
     tmpDir := tmpDir h; exec := exec h; data := data h; image := image h;
     nodesLimit := nodesLimit h; lastUpdated := lastUpdated h; fs := fs h;
     events := events h |}.

Definition set_queue (q : list Task) (h : Server) : Server :=
  {| progress := progress h; queue := q; filesDir := filesDir h;
     tmpDir := tmpDir h; exec := exec h; data := data h; image := image h;
     nodesLimit := nodesLimit h; lastUpdated := lastUpdated h; fs := fs h;
     events := events h |}.

Definition set_lastUpdated (l : LastUpdated) (h : Server) : Server :=
  {| progress := progress h; queue := queue h; filesDir := filesDir h;
     tmpDir := tmpDir h; exec := exec h; data := data h; image := image h;
     nodesLimit := nodesLimit h; lastUpdated := l; fs := fs h;
     events := events h |}.

Definition set_fs (f : gmap string string -> gmap string string)
                  (h : Server) : Server :=
  {| progress := progress h; queue := queue h; filesDir := filesDir h;
     tmpDir := tmpDir h; exec := exec h; data := data h; image := image h;
     nodesLimit := nodesLimit h; lastUpdated := lastUpdated h; fs := f (fs h);
     events := events h |}.

Definition emit (e : event) (h : Server) : Server :=
  {| progress := progress h; queue := queue h; filesDir := filesDir h;
     tmpDir := tmpDir h; exec := exec h; data := data h; image := image h;
     nodesLimit := nodesLimit h; lastUpdated := lastUpdated h; fs := fs h;
     events := events h ++ [e] |}.

(** [b[lo:hi]]: panics unless [0 <= lo <= hi <= len(b)]. *)
Definition slice (b : string) (lo hi : Z) : option string :=
  if ((0 <=? lo) && (lo <=? hi) && (hi <=? Z.of_nat (String.length b)))%Z
  then Some (substring (Z.to_nat lo) (Z.to_nat (hi - lo)) b)
  else None.

(** *** The queue: [make(chan Task, 512)] *)

Definition capacity : Z := 512.

(** [select { case h.queue <- task: ...; default: ... }]: the send goes
    through when the buffer has room, and is given up otherwise. *)
Definition chan_send (task : Task) (h : Server) : option Server :=
  if (Z.of_nat (length (queue h)) <? capacity)%Z
  then Some (set_queue (queue h ++ [task]) h)
  else None.

(** [task := <-queue]; [None] when the receive would block. *)
Definition chan_recv (h : Server) : option (Task * Server) :=
  match queue h with
  | [] => None
  | task :: rest => Some (task, set_queue rest h)
  end.

(** [StartWorkers]: an empty buffer and an empty registry. *)
Definition StartWorkers (h : Server) : Server :=
  set_progress (fun _ => ∅) (set_queue [] h).

(** [strings.Split(path, "/")] *)
Fixpoint split_slash_from (cur : string) (path : string) : list string :=
  match path with
  | EmptyString => [cur]
  | String c rest =>
      if Ascii.eqb c "/"%char then cur :: split_slash_from "" rest
      else split_slash_from (cur ++ String c "") rest
  end.

Definition split_slash (path : string) : list string := split_slash_from "" path.

(** No byte of the string is a slash. *)
Fixpoint plain (s : string) : bool :=
  match s with
  | EmptyString => true
  | String c rest => negb (Ascii.eqb c "/"%char) && plain rest
  end.

(** *** Paths: [filepath.Join]

    [filepath.Join] joins its non-empty arguments with slashes and cleans
    the result.  [filepath.Clean] works on the elements between slashes:
    empty elements and [.] are dropped, [..] removes the element before it,
    is dropped at the root, and is kept at the head of a path that is not
    rooted; the empty path becomes [.]. *)

(** [os.IsPathSeparator(path[0])] *)
Definition is_rooted (path : string) : bool :=
  match path with
  | String c _ => Ascii.eqb c "/"%char
  | EmptyString => false
  end.

(** One element of the path; [stack] holds the elements kept so far, the
    last one first. *)
Definition clean_element (rooted : bool) (stack : list string) (elem : string)
  : list string :=
  if String.eqb elem "" || String.eqb elem "." then stack
  else if String.eqb elem ".." then
    match stack with
    | top :: rest => if String.eqb top ".." then elem :: stack else rest
    | [] => if rooted then [] else [elem]
    end
  else elem :: stack.

Fixpoint joined (stack : list string) : string :=
  match stack with
  | [] => ""
  | elem :: rest =>
      match rest with
      | [] => elem
      | _ => joined rest ++ "/" ++ elem
      end
  end.

Definition render (rooted : bool) (stack : list string) : string :=
  if rooted then "/" ++ joined stack
  else match stack with
       | [] => "."
       | _ => joined stack
       end.

Definition Clean (path : string) : string :=
  let rooted := is_rooted path in
  render rooted (fold_left (clean_element rooted) (split_slash path) []).

(** [filepath.Join(dir, name)] *)
Definition Join (dir name : string) : string :=
  if String.eqb dir "" then
    if String.eqb name "" then "" else Clean name
  else Clean (dir ++ "/" ++ name).

(** *** Requests and responses *)

Record Request : Type := { Method : string; Path : string; Body : string }.

(** What a handler wrote after the headers; JSON documents are kept as
    the value given to the encoder. *)
Inductive payload : Type :=
| NoBody
| Text (s : string)
| Bytes (b : string)
| JSONState (st : SystemState)
| JSONProgress (p : Progress).

Record Response : Type := {
  code : Z;
  headers : list (string * string);
  sent : payload
}.

Definition cors : string * string := ("Access-Control-Allow-Origin", "*").

Definition respond (status : Z) (body : payload) : Response :=
  {| code := status; headers := [cors]; sent := body |}.

Definition respond_typed (ctype : string) (body : payload) : Response :=
  {| code := 200; headers := [cors; ("Content-Type", ctype)]; sent := body |}.

(** What one call of a handler draws from outside the process. *)
Record Oracle : Type := {
  uuid_New : string;       (* uuid.New().String() *)
  now_check : Z;           (* the clock at time.Since(checkedAt) *)
  query_output : string;   (* stdout of the timestamp query *)
  now_stamp : Z;           (* the clock at checkedAt = time.Now() *)
  now_status : Z           (* the clock at time.Now().Sub(timestamp) *)
}.

(** What one run of the extraction tool and of the system calls around it
    turns out to be. *)
Record Run : Type := {
  create_fails : bool;          (* os.Create(regionPath) *)
  region_short : option nat;    (* out.Write stopped after that many bytes *)
  echo_fails : bool;            (* WriteFile(<id>_region.json) *)
  echo_left : option nat;       (* ... and the bytes it had written by then *)
  start_fails : bool;           (* cmd.Start() *)
  stdout_lines : list string;   (* the lines read before end of file *)
  wait_fails : bool;            (* cmd.Wait(): nonzero exit *)
  artifact : option string;     (* what the tool left at pbfPath *)
  open_fails : bool;            (* os.Open(pbfPath), the file being there *)
  stat_fails : bool;            (* f.Stat() *)
  rename_fails : bool;          (* os.Rename *)
  remove_fails : bool;          (* os.Remove(regionPath) *)
  record_fails : bool;          (* WriteFile(<id>) *)
  record_left : option nat;     (* ... and the bytes it had written by then *)
  seconds : Q                   (* time.Since(start).Seconds() *)
}.

(** A write that stops early leaves the bytes written so far. *)
Definition written (short : option nat) (data : string) : string :=
  match short with
  | Some n => substring 0 n data
  | None => data
  end.

(** [ioutil.WriteFile(path, data, 0644)] opens the file with [O_TRUNC],
    writes and closes it.  When the call fails, the file is as before if it
    could not be opened ([left = None]), and otherwise holds the [n] bytes
    that reached it ([left = Some n]). *)
Definition WriteFile_failed (left : option nat) (path data : string) (h : Server)
  : Server :=
  match left with
  | Some n => set_fs (<[path := substring 0 n data]>) h
  | None => h
  end.

(** How a call ends: it returns, or the goroutine panics. *)
Inductive ending (A : Type) : Type :=
| Returned (a : A)
| Panicked.
Arguments Returned {A} a.
Arguments Panicked {A}.

(** *** Durations *)

Definition Second : Z := 1000000000.
Definition Minute : Z := 60 * Second.

(** [t.Sub(u)]: saturates at the bounds of [int64]. *)
Definition Sub (t u : Z) : Z :=
  Z.max GoInt.min_int (Z.min GoInt.max_int (t - u)).

(** [d.Seconds()] and [d.Minutes()]: whole part plus fraction. *)
Definition Seconds (d : Z) : Q :=
  inject_Z (Z.quot d Second) + inject_Z (Z.rem d Second) / inject_Z Second.

Definition Minutes (d : Z) : Q :=
  inject_Z (Z.quot d Minute) + inject_Z (Z.rem d Minute) / inject_Z Minute.

Section Server.

(** The parameters of the validator and of the estimator. *)
Variable coord : Type.
Variable geojson_Geometry : Type.
Variable Decode_Input : string -> option Input.
Variable UnmarshalGeometry : string -> option geojson_Geometry.
Variable Geometry_of : geojson_Geometry -> Geometry coord.
Variable MarshalJSON : geojson_Geometry -> string.
Variable Unmarshal_coords : string -> list coord.
Variable Marshal_coords : list coord -> string.
Variable MultiPoint_Bound : list (Point coord) -> Bound coord.
Variable Area_is_zero : Geometry coord -> bool.
Variable tilecover : Geometry coord -> Z -> list Tile.

(** [encoding/json] on the documents of the server, [time] and
    [strings]. *)
Variable Marshal_Task : Task -> option string.
Variable Marshal_Progress : Progress -> option string.
Variable Decode_Progress : string -> option Progress.
Variable time_Parse : string -> option Z.
Variable time_Format : Z -> string.
Variable TrimSpace : string -> string.
(** The embedded [z12_red_green.png]. *)
Variable imageBytes : string.
(** The paths on which [os.Stat] succeeds although they hold no file that
    can be read: the directories, which the server neither creates nor
    removes.  ([fs] maps a path to the bytes of the file read there.) *)
Variable is_dir : string -> bool.

Definition parse : string -> Parsed coord + Validator.error :=
  parseInput coord geojson_Geometry Decode_Input UnmarshalGeometry Geometry_of
             MarshalJSON Unmarshal_coords Marshal_coords MultiPoint_Bound
             Area_is_zero.

Definition estimate (h : Server) (g : Geometry coord) : option Z :=
  GetSum (Geometry coord) tilecover (image h) g.

(** **** [runTask] *)

Definition pbfPath (h : Server) (task : Task) : string :=
  Join (tmpDir h) (Uuid task ++ ".osm.pbf").

Definition regionPath (h : Server) (task : Task) : string :=
  Join (tmpDir h) (Uuid task ++ "." ++ SanitizedRegionType task).

Definition echoPath (h : Server) (task : Task) : string :=
  Join (filesDir h) (Uuid task ++ "_region.json").

Definition artifactPath (h : Server) (task : Task) : string :=
  Join (filesDir h) (Uuid task ++ ".osm.pbf").

Definition recordPath (h : Server) (task : Task) : string :=
  Join (filesDir h) (Uuid task).

(** Lines 116-120: the bytes given to [out.Write]. *)
Definition region_file (task : Task) : option string :=
  if String.eqb (SanitizedRegionType task) "bbox" then
    slice (SanitizedRegionData task) 1
          (Z.of_nat (String.length (SanitizedRegionData task)) - 1)
  else Some (SanitizedRegionData task).

(** Lines 108-121: the region-description file.  [os.Create] leaves an
    empty file, the slice of line 117 can panic, and the result of
    [out.Write] is dropped: the run goes on after a short write. *)
Definition write_region (run : Run) (task : Task) (h : Server)
  : Server * ending (option run_error) :=
  if create_fails run then (h, Returned (Some ErrCreate))
  else
    match region_file task with
    | None => (set_fs (<[regionPath h task := ""]>) h, Panicked)
    | Some bytes =>
        (set_fs (<[regionPath h task := written (region_short run) bytes]>) h,
         Returned None)
    end.

(** Lines 123-130: the echo of the sanitized submission. *)
Definition write_echo (run : Run) (task : Task) (h : Server)
  : Server * ending (option run_error) :=
  match Marshal_Task task with
  | None => (h, Returned (Some ErrMarshalTask))
  | Some taskJson =>
      if echo_fails run then
        (WriteFile_failed (echo_left run) (echoPath h task) taskJson h,
         Returned (Some ErrWriteEcho))
      else (set_fs (<[echoPath h task := taskJson]>) h, Returned None)
  end.

(** Lines 141-151: every line read replaces the registry entry. *)
Fixpoint read_lines (uuid : string) (lines : list string) (h : Server)
  : Server * option run_error :=
  match lines with
  | [] => (h, None)
  | line :: rest =>
      match Decode_Progress line with
      | None => (h, Some (ErrDecode line))
      | Some progress => read_lines uuid rest (set_progress (<[uuid := progress]>) h)
      end
  end.

(** Lines 132-155: the subprocess. *)
Definition extract (run : Run) (task : Task) (h : Server)
  : Server * ending (option run_error) :=
  let h := emit (Exec (exec h)
                      ["extract"; data h; pbfPath h task; "--jsonOutput";
                       "--region"; regionPath h task]) h in
  if start_fails run then (h, Returned (Some ErrStart))
  else
    match read_lines (Uuid task) (stdout_lines run) h with
    | (h, Some e) => (h, Returned (Some e))
    | (h, None) =>
        let h := match artifact run with
                 | Some bytes => set_fs (<[pbfPath h task := bytes]>) h
                 | None => h
                 end in
        if wait_fails run then (h, Returned (Some ErrWait))
        else (h, Returned None)
    end.

(** Lines 157-193: the artifact moves to the files directory, the
    registry entry goes, the completion record is written. *)
Definition finish (run : Run) (task : Task) (h : Server)
  : Server * ending (option run_error) :=
  match fs h !! pbfPath h task with
  | None => (h, Returned (Some ErrOpen))
  | Some bytes =>
      if open_fails run then (h, Returned (Some ErrOpen))
      else if stat_fails run then (h, Returned (Some ErrStat))
      else if rename_fails run then (h, Returned (Some ErrRename))
      else
        let h := set_fs (fun m => <[artifactPath h task := bytes]>
                                    (delete (pbfPath h task) m)) h in
        if remove_fails run then (h, Returned (Some ErrRemove))
        else
          let h := set_fs (delete (regionPath h task)) h in
          let lastProgress := default Progress_zero (progress h !! Uuid task) in
          let h := set_progress (delete (Uuid task)) h in
          let lastProgress :=
            {| Timestamp := Timestamp lastProgress;
               CellsTotal := CellsTotal lastProgress;
               CellsProg := CellsProg lastProgress;
               NodesTotal := NodesTotal lastProgress;
               NodesProg := NodesProg lastProgress;
               ElemsTotal := ElemsTotal lastProgress;
               ElemsProg := ElemsProg lastProgress;
               SizeBytes := Z.of_nat (String.length bytes);
               Elapsed := seconds run;
               Complete := true |} in
          match Marshal_Progress lastProgress with
          | None => (h, Returned (Some ErrMarshalProgress))
          | Some completion =>
              if record_fails run then
                (WriteFile_failed (record_left run) (recordPath h task) completion h,
                 Returned (Some ErrWriteRecord))
              else (set_fs (<[recordPath h task := completion]>) h, Returned None)
          end
  end.

(** One block after the other, until one returns an error or panics. *)
Definition and_then (first second : Server -> Server * ending (option run_error))
                    (h : Server) : Server * ending (option run_error) :=
  match first h with
  | (h, Returned None) => second h
  | stopped => stopped
  end.

Definition runTask (run : Run) (task : Task) : Server -> Server * ending (option run_error) :=
  and_then (write_region run task)
    (and_then (write_echo run task)
       (and_then (extract run task) (finish run task))).

(** **** [worker] *)

(** Lines 198-200. *)
Definition worker_register (task : Task) (h : Server) : Server :=
  set_progress (<[Uuid task := Progress_zero]>) h.

(** Lines 198-207: the body of the loop for a task just received. *)
Definition worker_handle (run : Run) (task : Task) (h : Server)
  : Server * ending unit :=
  match runTask run task (worker_register task h) with
  | (h, Returned (Some err)) => (emit (CaptureException err) h, Returned tt)
  | (h, Returned None) => (h, Returned tt)
  | (h, Panicked) => (h, Panicked)
  end.

(** One turn of [for task := range queue]; [None] when the receive
    blocks. *)
Definition worker (run : Run) (h : Server) : option (Server * ending unit) :=
  match chan_recv h with
  | None => None
  | Some (task, h) => Some (worker_handle run task h)
  end.

(** **** [ServeHTTP] *)

(** Lines 346-349: the registry entry of a task just sent. *)
Definition POST_register (task : Task) (h : Server) : Server :=
  set_progress (<[Uuid task := Progress_zero]>) h.

(** Lines 342-354, once the submission is validated and admitted. *)
Definition submit (task : Task) (h : Server) : Server * Response :=
  match chan_send task h with
  | Some h => (POST_register task h, respond 201 (Text (Uuid task)))
  | None => (h, respond 503 NoBody)
  end.

Definition POST (o : Oracle) (r : Request) (h : Server)
  : Server * ending Response :=
  match parse (Body r) with
  | inr _ => (h, Returned (respond 400 NoBody))
  | inl p =>
      match estimate h (geom coord p) with
      | None => (h, Panicked)
      | Some sum =>
          if (nodesLimit h <? sum)%Z then
            (h, Returned (respond 400 (Text "Error: the limit of nodes was exceeded.")))
          else
            let task := {| Uuid := uuid_New o;
                           SanitizedName := sanitized_name coord p;
                           SanitizedRegionType := sanitized_type coord p;
                           SanitizedRegionData := sanitized_region coord p |} in
            let (h, w) := submit task h in (h, Returned w)
      end
  end.

(** Lines 357-381: [GET /api]. *)
Definition refresh (o : Oracle) (h : Server) : Server :=
  if Qlt_le_dec 10 (Seconds (Sub (now_check o) (checkedAt (lastUpdated h))))
  then
    let h := emit (Exec (exec h) ["query"; data h; "timestamp"]) h in
    match time_Parse (TrimSpace (query_output o)) with
    | Some timestamp =>
        set_lastUpdated {| timestamp := timestamp; checkedAt := now_stamp o |} h
    | None => h
    end
  else h.

Definition health (o : Oracle) (timestamp : Z) : string :=
  if Qlt_le_dec 15 (Minutes (Sub (now_status o) timestamp)) then "warn" else "ok".

Definition GET_state (o : Oracle) (h : Server) : Server * Response :=
  let l := Z.of_nat (length (queue h)) in
  let h := refresh o h in
  let timestamp := timestamp (lastUpdated h) in
  (h, respond_typed "application/json"
        (JSONState {| Status := health o timestamp;
                      QueueSize := l;
                      NodesLimit := nodesLimit h;
                      StateTimestamp := time_Format timestamp |})).

(** Lines 386-411: [GET /api/<id>].  Once [os.Stat] has found the path, the
    answer is 200 with whatever [io.Copy] can read there: the bytes of a
    file, nothing for a directory (the errors of [os.Open] and of the copy
    are dropped). *)
Definition GET_task (r : Request) (h : Server) : Response :=
  match split_slash (Path r) with
  | [p0; p1; uuid] =>
      if negb (String.eqb p0 "") || negb (String.eqb p1 "api") then respond 404 NoBody
      else
        match progress h !! uuid with
        | Some progress => respond_typed "application/json" (JSONProgress progress)
        | None =>
            let resultPath := Join (filesDir h) uuid in
            match fs h !! resultPath with
            | Some bytes => respond_typed "application/json" (Bytes bytes)
            | None =>
                if is_dir resultPath then respond_typed "application/json" (Bytes "")
                else respond 404 NoBody
            end
        end
  | _ => respond 404 NoBody
  end.

Definition ServeHTTP (o : Oracle) (r : Request) (h : Server)
  : Server * ending Response :=
  if String.eqb (Method r) "POST" then POST o r h
  else if String.eqb (Path r) "/api" || String.eqb (Path r) "/api/" then
    let (h, w) := GET_state o h in (h, Returned w)
  else if String.eqb (Path r) "/api/nodes.png" then
    (h, Returned (respond_typed "image/png" (Bytes imageBytes)))
  else (h, Returned (GET_task r h)).

(** **** Facts about the blocks *)

Lemma set_progress_queue f h : queue (set_progress f h) = queue h.
Proof. reflexivity. Qed.


Lemma chan_send_room task h h' :
  chan_send task h = Some h' ->
  (Z.of_nat (length (queue h)) < capacity)%Z
  /\ queue h' = (queue h ++ [task])%list /\ progress h' = progress h.
Proof.
  unfold chan_send.
  destruct (Z.ltb_spec (Z.of_nat (length (queue h))) capacity); [|discriminate].
  intros [= <-]. repeat split. assumption.
Qed.

(** The buffer never holds more than 512 tasks. *)
Lemma chan_send_bounded task h h' :
  (Z.of_nat (length (queue h)) <= capacity)%Z ->
  chan_send task h = Some h' ->
  (Z.of_nat (length (queue h')) <= capacity)%Z.
Proof.
  intros _ Hs. destruct (chan_send_room _ _ _ Hs) as (Hlt & -> & _).
  rewrite length_app. simpl. lia.
Qed.

(** **** Admission *)


(** **** The full queue *)


(** **** The freshness cache *)

(** A duration split into whole units and a fraction exceeds [k] units
    exactly when it exceeds [k * u] nanoseconds. *)
Lemma whole_fraction_gt k u d :
  (0 < u)%Z ->
  (inject_Z k < inject_Z (Z.quot d u) + inject_Z (Z.rem d u) / inject_Z u)%Q
  <-> (k * u < d)%Z.
Proof.
  intros Hu.
  assert (Hu' : (0 < inject_Z u)%Q).
  { change (inject_Z 0 < inject_Z u)%Q. rewrite <- Zlt_Qlt. exact Hu. }
  assert (Hne : ~ inject_Z u == 0) by (intros E; rewrite E in Hu'; discriminate).
  assert (E : inject_Z (Z.quot d u) + inject_Z (Z.rem d u) / inject_Z u
              == inject_Z d / inject_Z u).
  { rewrite (Z.quot_rem' d u) at 3. rewrite inject_Z_plus, inject_Z_mult.
    field. exact Hne. }
  rewrite E. split.
  - intros H. destruct (Z.lt_ge_cases (k * u) d) as [Hlt|Hge]; [exact Hlt|].
    exfalso. apply (Qlt_not_le _ _ H).
    apply Qle_shift_div_r; [exact Hu'|].
    rewrite <- inject_Z_mult, <- Zle_Qle. lia.
  - intros H. apply Qlt_shift_div_l; [exact Hu'|].
    rewrite <- inject_Z_mult, <- Zlt_Qlt. exact H.
Qed.

Lemma Seconds_gt d : (10 < Seconds d)%Q <-> (10 * Second < d)%Z.
Proof. apply (whole_fraction_gt 10 Second d). reflexivity. Qed.

Lemma Minutes_gt d : (15 < Minutes d)%Q <-> (15 * Minute < d)%Z.
Proof. apply (whole_fraction_gt 15 Minute d). reflexivity. Qed.

(** Saturation does not move a duration across a threshold that [int64]
    holds. *)
Lemma Sub_gt k t u :
  (GoInt.min_int <= k < GoInt.max_int)%Z -> (k < Sub t u)%Z <-> (k < t - u)%Z.
Proof. unfold Sub, GoInt.min_int, GoInt.max_int. lia. Qed.

Lemma refresh_due o h :
  (10 * Second < now_check o - checkedAt (lastUpdated h))%Z ->
  refresh o h
  = let h := emit (Exec (exec h) ["query"; data h; "timestamp"]) h in
    match time_Parse (TrimSpace (query_output o)) with
    | Some timestamp =>
        set_lastUpdated {| timestamp := timestamp; checkedAt := now_stamp o |} h
    | None => h
    end.
Proof.
  intros H. unfold refresh.
  destruct (Qlt_le_dec 10 _) as [_|Hle]; [reflexivity|].
  exfalso. apply (Qle_not_lt _ _ Hle). apply Seconds_gt.
  apply Sub_gt; [unfold GoInt.min_int, GoInt.max_int, Second; lia | exact H].
Qed.

Lemma refresh_not_due o h :
  (now_check o - checkedAt (lastUpdated h) <= 10 * Second)%Z -> refresh o h = h.
Proof.
  intros H. unfold refresh.
  destruct (Qlt_le_dec 10 _) as [Hlt|_]; [|reflexivity].
  apply (proj1 (Seconds_gt _)) in Hlt.
  apply (proj1 (Sub_gt (10 * Second) _ _
                  ltac:(unfold GoInt.min_int, GoInt.max_int, Second; lia)))
    in Hlt.
  lia.
Qed.

Lemma health_window o t :
  health o t = if (now_status o - t <=? 15 * Minute)%Z then "ok" else "warn".
Proof.
  unfold health.
  destruct (Qlt_le_dec 15 _) as [Hlt|Hle];
    destruct (Z.leb_spec (now_status o - t) (15 * Minute)) as [Hz|Hz];
    try reflexivity; exfalso.
  - apply (proj1 (Minutes_gt _)) in Hlt.
    apply (proj1 (Sub_gt (15 * Minute) _ _
                    ltac:(unfold GoInt.min_int, GoInt.max_int, Minute, Second; lia)))
      in Hlt.
    lia.
  - apply (Qle_not_lt _ _ Hle). apply Minutes_gt.
    apply Sub_gt; [unfold GoInt.min_int, GoInt.max_int, Minute, Second; lia | exact Hz].
Qed.

(** [GET /api]: the block of lines 357-381. *)
Lemma GET_state_cases o h :
  let elapsed := (now_check o - checkedAt (lastUpdated h))%Z in
  let h' := fst (GET_state o h) in
  ((10 * Second < elapsed)%Z ->
   events h' = (events h ++ [Exec (exec h) ["query"; data h; "timestamp"]])%list
   /\ lastUpdated h'
      = match time_Parse (TrimSpace (query_output o)) with
        | Some timestamp => {| timestamp := timestamp; checkedAt := now_stamp o |}
        | None => lastUpdated h
        end)
  /\ ((elapsed <= 10 * Second)%Z -> h' = h)
  /\ snd (GET_state o h)
     = respond_typed "application/json"
         (JSONState
            {| Status := if (now_status o - timestamp (lastUpdated h') <=? 15 * Minute)%Z
                         then "ok" else "warn";
               QueueSize := Z.of_nat (length (queue h));
               NodesLimit := nodesLimit h;
               StateTimestamp := time_Format (timestamp (lastUpdated h')) |}).
Proof.
  intros elapsed h'. subst h'. unfold GET_state. simpl fst. simpl snd.
  repeat split.
  - rewrite refresh_due by assumption. cbv zeta.
    now destruct (time_Parse (TrimSpace (query_output o))).
  - rewrite refresh_due by assumption. cbv zeta.
    now destruct (time_Parse (TrimSpace (query_output o))).
  - intros Hle. now apply refresh_not_due.
  - rewrite health_window. f_equal. f_equal. f_equal.
    unfold refresh. destruct (Qlt_le_dec 10 _); [|reflexivity].
    now destruct (time_Parse (TrimSpace (query_output o))).
Qed.

(** C8: a request for [/api] or [/api/] that is not a POST is a status query.
    [ServeHTTP] launches the timestamp query exactly when more than 10
    seconds separate the clock from the check time; a timestamp that parses
    replaces the cached one and the check time becomes the clock's, one that
    does not leaves both as they were, and so does a request within the 10
    seconds, which changes nothing at all.  The answer is 200 with the
    state document: the status is "ok" when the cached timestamp is at most
    15 minutes behind the clock and "warn" otherwise. *)
Theorem GET_state_freshness o r h :
  Method r <> "POST" -> Path r = "/api" \/ Path r = "/api/" ->
  let elapsed := (now_check o - checkedAt (lastUpdated h))%Z in
  let h' := fst (ServeHTTP o r h) in
  ((10 * Second < elapsed)%Z ->
   events h' = (events h ++ [Exec (exec h) ["query"; data h; "timestamp"]])%list
   /\ lastUpdated h'
      = match time_Parse (TrimSpace (query_output o)) with
        | Some timestamp => {| timestamp := timestamp; checkedAt := now_stamp o |}
        | None => lastUpdated h
        end)
  /\ ((elapsed <= 10 * Second)%Z -> h' = h)
  /\ snd (ServeHTTP o r h)
     = Returned
         (respond_typed "application/json"
            (JSONState
               {| Status := if (now_status o - timestamp (lastUpdated h')
                                <=? 15 * Minute)%Z
                            then "ok" else "warn";
                  QueueSize := Z.of_nat (length (queue h));
                  NodesLimit := nodesLimit h;
                  StateTimestamp := time_Format (timestamp (lastUpdated h')) |})).
Proof.
  intros Hm Hpath elapsed h'.
  assert (E : ServeHTTP o r h = (fst (GET_state o h), Returned (snd (GET_state o h)))).
  { unfold ServeHTTP.
    destruct (String.eqb_spec (Method r) "POST") as [?|_]; [contradiction|].
    destruct Hpath as [-> | ->]; reflexivity. }
  subst h'. rewrite E. cbn [fst snd].
  destruct (GET_state_cases o h) as (Hdue & Hquiet & Hw).
  split; [exact Hdue|]. split; [exact Hquiet|]. now rewrite Hw.
Qed.

(** **** The region-description file *)

Lemma length_append (a b : string) :
  String.length (a ++ b) = (String.length a + String.length b)%nat.
Proof. induction a as [|c a IH]; simpl; [reflexivity | now rewrite IH]. Qed.

Lemma substring_prefix (a b : string) : substring 0 (String.length a) (a ++ b) = a.
Proof.
  induction a as [|c a IH]; simpl.
  - now destruct b.
  - now rewrite IH.
Qed.

(** [data[1 : len(data)-1]] drops the first and the last byte. *)
Lemma slice_ends first (inner : string) final :
  slice (String first (inner ++ String final "")) 1
        (Z.of_nat (String.length (String first (inner ++ String final ""))) - 1)
  = Some inner.
Proof.
  unfold slice.
  cbn [String.length]. rewrite length_append. cbn [String.length].
  replace (Z.of_nat (S (String.length inner + 1)) - 1)%Z
    with (Z.of_nat (String.length inner) + 1)%Z by lia.
  replace (Z.of_nat (String.length inner) + 1 - 1)%Z
    with (Z.of_nat (String.length inner)) by lia.
  rewrite Nat2Z.id.
  destruct (Z.leb_spec 0 1); [|lia].
  destruct (Z.leb_spec 1 (Z.of_nat (String.length inner) + 1)); [|lia].
  destruct (Z.leb_spec (Z.of_nat (String.length inner) + 1)
              (Z.of_nat (S (String.length inner + 1)))); [|lia].
  cbn [andb]. change (Z.to_nat 1) with 1%nat. cbn [substring].
  now rewrite substring_prefix.
Qed.

(** Dropping the first and the last byte of a bracketed payload leaves what
    the brackets enclose. *)
Lemma slice_brackets (inner : string) :
  slice ("[" ++ inner ++ "]") 1
        (Z.of_nat (String.length ("[" ++ inner ++ "]")) - 1)
  = Some inner.
Proof. apply (slice_ends "[" inner "]"). Qed.

(** A payload of two bytes or more has a first and a last byte. *)
Lemma string_ends (s : string) :
  (2 <= String.length s)%nat ->
  exists first inner final, s = String first (inner ++ String final "").
Proof.
  destruct s as [|first s]; simpl; [lia|]. intros Hlen. exists first.
  assert (Hs : (1 <= String.length s)%nat) by lia. clear Hlen.
  induction s as [|c s IH]; simpl in Hs; [lia|].
  destruct s as [|d s].
  - exists "", c. reflexivity.
  - destruct (IH ltac:(simpl; lia)) as (inner & final & E).
    exists (String c inner), final. injection E as E.
    change (String c inner ++ String final "") with (String c (inner ++ String final "")).
    now rewrite <- E.
Qed.

(** The payload of a bbox task born of a POST is the array of its four
    numbers, so its file holds them separated by commas. *)
Lemma bbox_region_file (Format_coord : coord -> string) body input p task :
  (forall cs, Marshal_coords cs
              = "[" ++ String.concat "," (map Format_coord cs) ++ "]") ->
  Decode_Input body = Some input ->
  RegionType input = "bbox" ->
  parse body = inl p ->
  SanitizedRegionType task = sanitized_type coord p ->
  SanitizedRegionData task = sanitized_region coord p ->
  exists c0 c1 c2 c3,
    firstn 4 (Unmarshal_coords (RegionData input)) = [c0; c1; c2; c3]
    /\ region_file task
       = Some (Format_coord c0 ++ "," ++ Format_coord c1 ++ ","
               ++ Format_coord c2 ++ "," ++ Format_coord c3).
Proof.
  intros Hfmt Hd Ht Hp Htype Hdata.
  unfold parse, parseInput, parseRegion in Hp. rewrite Hd, Ht in Hp.
  simpl String.eqb in Hp. cbv iota in Hp.
  destruct (Unmarshal_coords (RegionData input)) as [|c0 [|c1 [|c2 [|c3 rest]]]];
    try discriminate.
  destruct (Area_is_zero _); [discriminate|]. injection Hp as <-.
  simpl in Htype, Hdata. exists c0, c1, c2, c3. split; [reflexivity|].
  unfold region_file. rewrite Htype, Hdata, Hfmt. simpl String.eqb. cbv iota.
  apply slice_brackets.
Qed.

(** **** What a run leaves in the registry and in the files directory *)

Lemma read_lines_keeps uuid lines : forall h h' r,
  read_lines uuid lines h = (h', r) ->
  (is_Some (progress h !! uuid) -> is_Some (progress h' !! uuid))
  /\ fs h' = fs h /\ filesDir h' = filesDir h /\ tmpDir h' = tmpDir h.
Proof.
  induction lines as [|line rest IH]; intros h h' r; simpl.
  - intros [= <- <-]. auto.
  - destruct (Decode_Progress line) as [p|]; [|intros [= <- <-]; auto].
    intros H. destruct (IH _ _ _ H) as (Hp & Hfs & Hf & Ht).
    repeat split; try assumption.
    intros _. apply Hp. simpl. rewrite lookup_insert_eq. eauto.
Qed.

(** The only error of the loop is that of a line that does not parse. *)
Lemma read_lines_error uuid lines : forall h h' e,
  read_lines uuid lines h = (h', Some e) -> exists line, e = ErrDecode line.
Proof.
  induction lines as [|line rest IH]; intros h h' e; simpl; [discriminate|].
  destruct (Decode_Progress line); [apply IH|]. intros [= _ <-]. eauto.
Qed.

(** A run that returns an error before the completion record is built
    leaves the registry entry of its task in place. *)
Lemma runTask_failed_entry run task h h' e :
  runTask run task h = (h', Returned (Some e)) ->
  is_Some (progress h !! Uuid task) ->
  e <> ErrMarshalProgress -> e <> ErrWriteRecord ->
  is_Some (progress h' !! Uuid task).
Proof.
  unfold runTask, and_then, write_region, write_echo, extract, finish.
  intros H Hp Hm Hw.
  destruct (create_fails run); [injection H as <- <-; exact Hp|].
  destruct (region_file task); [|discriminate].
  destruct (Marshal_Task task); [|injection H as <- <-; exact Hp].
  destruct (echo_fails run);
    [injection H as <- <-; now destruct (echo_left run)|].
  destruct (start_fails run); [injection H as <- <-; exact Hp|].
  match type of H with
  | context [read_lines ?u ?l ?s] =>
      destruct (read_lines u l s) as [h1 r] eqn:Hr;
      destruct (read_lines_keeps _ _ _ _ _ Hr) as (Hk & _)
  end.
  specialize (Hk Hp).
  destruct r; [injection H as <- <-; exact Hk|].
  destruct (wait_fails run).
  { injection H as <- <-. now destruct (artifact run). }
  assert (Hk' : is_Some (progress (match artifact run with
                                   | Some bytes => set_fs (<[pbfPath h1 task := bytes]>) h1
                                   | None => h1
                                   end) !! Uuid task))
    by now destruct (artifact run).
  revert H Hk'. generalize (match artifact run with
                            | Some bytes => set_fs (<[pbfPath h1 task := bytes]>) h1
                            | None => h1
                            end). intros h2 H Hk'.
  destruct (fs h2 !! pbfPath h2 task); [|injection H as <- <-; exact Hk'].
  destruct (open_fails run); [injection H as <- <-; exact Hk'|].
  destruct (stat_fails run); [injection H as <- <-; exact Hk'|].
  destruct (rename_fails run); [injection H as <- <-; exact Hk'|].
  destruct (remove_fails run); [injection H as <- <-; exact Hk'|].
  destruct (Marshal_Progress _); [|injection H as _ <-; congruence].
  destruct (record_fails run); [injection H as _ <-; congruence | discriminate].
Qed.

(** The worker reports the error and goes on: nothing removes the entry
    of a task whose subprocess did not start, exited nonzero, or printed a
    line that does not parse. *)
Lemma worker_failed_entry run task h h1 e :
  runTask run task (worker_register task h) = (h1, Returned (Some e)) ->
  (e = ErrStart \/ e = ErrWait \/ exists line, e = ErrDecode line) ->
  is_Some (progress (fst (worker_handle run task h)) !! Uuid task)
  /\ snd (worker_handle run task h) = Returned tt.
Proof.
  intros H He. unfold worker_handle. rewrite H. simpl. split; [|reflexivity].
  apply (runTask_failed_entry _ _ _ _ _ H).
  - unfold worker_register. simpl. rewrite lookup_insert_eq. eauto.
  - destruct He as [->|[->|[line ->]]]; discriminate.
  - destruct He as [->|[->|[line ->]]]; discriminate.
Qed.

(** A run that succeeds removes the entry. *)
Lemma runTask_done_entry run task h h' :
  runTask run task h = (h', Returned None) -> progress h' !! Uuid task = None.
Proof.
  unfold runTask, and_then, write_region, write_echo, extract, finish.
  intros H.
  destruct (create_fails run); [discriminate|].
  destruct (region_file task); [|discriminate].
  destruct (Marshal_Task task); [|discriminate].
  destruct (echo_fails run); [discriminate|].
  destruct (start_fails run); [discriminate|].
  match type of H with
  | context [read_lines ?u ?l ?s] => destruct (read_lines u l s) as [h1 r]
  end.
  destruct r; [discriminate|].
  destruct (wait_fails run); [discriminate|].
  revert H. generalize (match artifact run with
                        | Some bytes => set_fs (<[pbfPath h1 task := bytes]>) h1
                        | None => h1
                        end). intros h2 H.
  destruct (fs h2 !! pbfPath h2 task); [|discriminate].
  destruct (open_fails run); [discriminate|].
  destruct (stat_fails run); [discriminate|].
  destruct (rename_fails run); [discriminate|].
  destruct (remove_fails run); [discriminate|].
  destruct (Marshal_Progress _); [|discriminate].
  destruct (record_fails run); [discriminate|].
  injection H as <-. simpl. apply lookup_delete_eq.
Qed.

(** **** Submission, one goroutine at a time *)

(** When nothing runs between the send and the registration, an accepted
    task is in the buffer with an all-zero registry entry. *)
Lemma submit_registers task h h' w :
  submit task h = (h', w) -> code w = 201%Z ->
  progress h' !! Uuid task = Some Progress_zero
  /\ queue h' = (queue h ++ [task])%list.
Proof.
  unfold submit. destruct (chan_send task h) as [h1|] eqn:Hs.
  - intros [= <- <-] _. destruct (chan_send_room _ _ _ Hs) as (_ & Hq & _).
    split; [apply lookup_insert_eq | exact Hq].
  - intros [= <- <-]. discriminate.
Qed.

Lemma GET_task_registered r h uuid p :
  split_slash (Path r) = [""; "api"; uuid] ->
  progress h !! uuid = Some p ->
  GET_task r h = respond_typed "application/json" (JSONProgress p).
Proof. intros Hs Hp. unfold GET_task. now rewrite Hs, Hp. Qed.

(** **** Paths that differ *)

Lemma append_snoc (a : string) c (b : string) :
  (a ++ String c "") ++ b = a ++ String c b.
Proof.
  induction a as [|d a IH]; [reflexivity|].
  change (String d ((a ++ String c "") ++ b) = String d (a ++ String c b)).
  now rewrite IH.
Qed.

Lemma append_empty (a : string) : a ++ "" = a.
Proof.
  induction a as [|d a IH]; [reflexivity|].
  change (String d (a ++ "") = String d a). now rewrite IH.
Qed.

Lemma split_slash_from_plain s : forall cur,
  plain s = true -> split_slash_from cur s = [cur ++ s].
Proof.
  induction s as [|c s IH]; intros cur; simpl.
  - intros _. now rewrite append_empty.
  - destruct (Ascii.eqb c "/"%char); [discriminate|]. simpl. intros Hp.
    rewrite (IH _ Hp). now rewrite append_snoc.
Qed.

Lemma append_assoc (a b c : string) : (a ++ b) ++ c = a ++ (b ++ c).
Proof.
  induction a as [|d a IH]; [reflexivity|].
  change (String d ((a ++ b) ++ c) = String d (a ++ (b ++ c))). now rewrite IH.
Qed.

(** Appending a suffix without a slash to a path extends its last
    element. *)
Lemma split_slash_from_suffix suffix path : forall cur,
  plain suffix = true ->
  exists init final,
    split_slash_from cur path = (init ++ [final])%list
    /\ split_slash_from cur (path ++ suffix)
       = (init ++ [(final ++ suffix)%string])%list.
Proof.
  induction path as [|c path IH]; intros cur Hp.
  - exists [], cur. split; [reflexivity|].
    change ("" ++ suffix) with suffix. now apply split_slash_from_plain.
  - change (String c path ++ suffix) with (String c (path ++ suffix)). simpl.
    destruct (Ascii.eqb c "/"%char).
    + destruct (IH "" Hp) as (init & final & E1 & E2).
      exists (cur :: init), final. rewrite E1, E2. split; reflexivity.
    + apply IH. exact Hp.
Qed.

Lemma is_rooted_suffix suffix path :
  plain suffix = true -> is_rooted (path ++ suffix) = is_rooted path.
Proof.
  intros Hp. destruct path as [|c path]; [|reflexivity].
  change ("" ++ suffix) with suffix. destruct suffix as [|d suffix]; [reflexivity|].
  simpl in *. now destruct (Ascii.eqb d "/"%char).
Qed.

Lemma length_render_push rooted elem stack :
  String.length (render rooted (elem :: stack))
  = (match stack with
     | [] => if rooted then 1 else 0
     | _ => String.length (render rooted stack) + 1
     end + String.length elem)%nat.
Proof.
  unfold render. destruct rooted, stack as [|top rest];
    cbn [joined]; rewrite ?length_append; cbn [String.length]; lia.
Qed.

(** A suffix of three bytes or more without a slash makes the last element
    of a path an ordinary name, which [filepath.Clean] keeps: the cleaned
    path gets longer than it is without the suffix. *)
Lemma length_Clean_suffix path suffix :
  plain suffix = true -> (3 <= String.length suffix)%nat ->
  String.length (Clean (path ++ suffix)) <> String.length (Clean path)
  /\ (3 <= String.length (Clean (path ++ suffix)))%nat.
Proof.
  intros Hp Hlen. unfold Clean, split_slash.
  rewrite (is_rooted_suffix suffix path Hp).
  destruct (split_slash_from_suffix suffix path "" Hp) as (init & final & -> & ->).
  rewrite !fold_left_app. cbn [fold_left].
  set (rooted := is_rooted path).
  set (stack := fold_left (clean_element rooted) init []).
  assert (Hl : String.length (final ++ suffix)
               = (String.length final + String.length suffix)%nat)
    by apply length_append.
  assert (Hpush : clean_element rooted stack (final ++ suffix)
                  = (final ++ suffix) :: stack).
  { unfold clean_element.
    destruct (String.eqb_spec (final ++ suffix) "") as [E|_];
      [rewrite E in Hl; simpl in Hl; lia|].
    destruct (String.eqb_spec (final ++ suffix) ".") as [E|_];
      [rewrite E in Hl; simpl in Hl; lia|].
    destruct (String.eqb_spec (final ++ suffix) "..") as [E|_];
      [rewrite E in Hl; simpl in Hl; lia|].
    reflexivity. }
  rewrite Hpush. rewrite length_render_push, Hl.
  split.
  2:{ destruct stack; [destruct rooted|]; lia. }
  unfold clean_element.
  destruct (String.eqb_spec final "") as [->|_]; cbn [orb].
  { destruct stack as [|top rest]; [destruct rooted; simpl; lia | lia]. }
  destruct (String.eqb_spec final ".") as [->|_]; cbn [orb].
  { destruct stack as [|top rest]; [destruct rooted; simpl; lia | lia]. }
  destruct (String.eqb_spec final "..") as [->|_].
  - destruct stack as [|top rest]; [destruct rooted; simpl; lia|].
    destruct (String.eqb top "..").
    + rewrite (length_render_push rooted ".." (top :: rest)).
      cbn [String.length]. lia.
    + rewrite (length_render_push rooted top rest).
      destruct rest as [|top' rest']; [destruct rooted; simpl; lia | lia].
  - rewrite (length_render_push rooted final stack). lia.
Qed.

(** The cleaning table of the tests of [path/filepath], in part. *)
Example Clean_cases :
  map Clean ["abc"; "../../abc"; "/"; ""; "abc/def/"; "../../"; "//abc//";
             "abc/./def"; "abc/."; "abc/def/../ghi/../jkl"; "abc/def/../..";
             "/abc/def/../../.."; "abc/def/../../../ghi/jkl/../../../mno";
             "abc/../../././../def"]
  = ["abc"; "../../abc"; "/"; "."; "abc/def"; "../.."; "/abc";
     "abc/def"; "abc"; "abc/jkl"; ".";
     "/"; "../../mno";
     "../../def"].
Proof. reflexivity. Qed.

Example Join_cases :
  map (fun p => Join (fst p) (snd p))
      [("/files", "0b5e"); ("/files", "."); ("/files", ".."); ("files/", "0b5e");
       ("", "0b5e"); ("", ""); ("/files", "")]
  = ["/files/0b5e"; "/files"; "/"; "files/0b5e"; "0b5e"; ""; "/files"].
Proof. reflexivity. Qed.

(** The files that [runTask] names by a suffix to the identifier are not
    the file named by the identifier alone. *)
Lemma Join_suffix_ne dir name suffix :
  plain suffix = true -> (3 <= String.length suffix)%nat ->
  Join dir (name ++ suffix) <> Join dir name.
Proof.
  intros Hp Hlen E. apply (f_equal String.length) in E. revert E. unfold Join.
  destruct (String.eqb dir "").
  - destruct (length_Clean_suffix name suffix Hp Hlen) as [Hne Hge].
    destruct (String.eqb_spec (name ++ suffix) "") as [E|_].
    { apply (f_equal String.length) in E. rewrite length_append in E.
      simpl in E. lia. }
    destruct (String.eqb name ""); [simpl; lia | exact Hne].
  - rewrite <- (append_assoc "/" name suffix),
            <- (append_assoc dir ("/" ++ name) suffix).
    apply (length_Clean_suffix (dir ++ "/" ++ name) suffix Hp Hlen).
Qed.

(** **** The completion record after an error *)

(** What a run that has not returned [nil] leaves at the path of the
    completion record. *)
Lemma runTask_record_file run task h :
  regionPath h task <> recordPath h task ->
  pbfPath h task <> recordPath h task ->
  forall h' r,
    runTask run task h = (h', r) ->
    match r with
    | Returned None => True
    | Returned (Some ErrWriteRecord) =>
        match record_left run with
        | None => fs h' !! recordPath h task = fs h !! recordPath h task
        | Some n =>
            exists p completion,
              Marshal_Progress p = Some completion /\ Complete p = true
              /\ fs h' !! recordPath h task = Some (substring 0 n completion)
        end
    | _ => fs h' !! recordPath h task = fs h !! recordPath h task
    end.
Proof.
  intros Hregion Hpbf.
  assert (Hecho : echoPath h task <> recordPath h task)
    by (apply Join_suffix_ne; [reflexivity | simpl; lia]).
  assert (Hart : artifactPath h task <> recordPath h task)
    by (apply Join_suffix_ne; [reflexivity | simpl; lia]).
  unfold runTask, and_then, write_region, write_echo, extract, finish.
  destruct (create_fails run); [now intros h' r [= <- <-]|].
  destruct (region_file task) as [bytes|];
    [|intros h' r [= <- <-]; simpl; now rewrite lookup_insert_ne].
  destruct (Marshal_Task task) as [taskJson|];
    [|intros h' r [= <- <-]; simpl; now rewrite lookup_insert_ne].
  destruct (echo_fails run).
  { intros h' r [= <- <-]. unfold WriteFile_failed.
    destruct (echo_left run); simpl; now rewrite !lookup_insert_ne. }
  destruct (start_fails run);
    [intros h' r [= <- <-]; simpl; now rewrite !lookup_insert_ne|].
  match goal with
  | |- context [read_lines ?u ?l ?s] =>
      destruct (read_lines u l s) as [h1 e1] eqn:Hr;
      destruct (read_lines_keeps _ _ _ _ _ Hr) as (_ & Hfs & Hfd & Htd)
  end.
  simpl in Hfs, Hfd, Htd.
  assert (H1 : fs h1 !! recordPath h task = fs h !! recordPath h task).
  { rewrite Hfs. now rewrite !lookup_insert_ne. }
  assert (Hp1 : pbfPath h1 task = pbfPath h task) by (unfold pbfPath; now rewrite Htd).
  assert (Hr1 : regionPath h1 task = regionPath h task)
    by (unfold regionPath; now rewrite Htd).
  assert (Ha1 : artifactPath h1 task = artifactPath h task)
    by (unfold artifactPath; now rewrite Hfd).
  assert (Hc1 : recordPath h1 task = recordPath h task)
    by (unfold recordPath; now rewrite Hfd).
  destruct e1 as [e1|].
  { intros h' r [= <- <-].
    destruct (read_lines_error _ _ _ _ _ Hr) as [line ->]. exact H1. }
  set (h2 := match artifact run with
             | Some bytes => set_fs (<[pbfPath h1 task := bytes]>) h1
             | None => h1
             end).
  assert (H2 : fs h2 !! recordPath h task = fs h !! recordPath h task).
  { unfold h2. destruct (artifact run); [|exact H1].
    simpl. rewrite Hp1. now rewrite lookup_insert_ne. }
  assert (Hp2 : pbfPath h2 task = pbfPath h task)
    by (unfold h2; now destruct (artifact run)).
  assert (Hr2 : regionPath h2 task = regionPath h task)
    by (unfold h2; now destruct (artifact run)).
  assert (Ha2 : artifactPath h2 task = artifactPath h task)
    by (unfold h2; now destruct (artifact run)).
  assert (Hc2 : recordPath h2 task = recordPath h task)
    by (unfold h2; now destruct (artifact run)).
  clearbody h2.
  destruct (wait_fails run); [now intros h' r [= <- <-]|].
  destruct (fs h2 !! pbfPath h2 task) as [pbf|]; [|now intros h' r [= <- <-]].
  destruct (open_fails run); [now intros h' r [= <- <-]|].
  destruct (stat_fails run); [now intros h' r [= <- <-]|].
  destruct (rename_fails run); [now intros h' r [= <- <-]|].
  assert (H3 : (<[artifactPath h2 task := pbf]> (delete (pbfPath h2 task) (fs h2)))
               !! recordPath h task = fs h !! recordPath h task).
  { rewrite Ha2, Hp2. rewrite lookup_insert_ne by assumption.
    now rewrite lookup_delete_ne. }
  destruct (remove_fails run); [now intros h' r [= <- <-]|].
  assert (H4 : delete (regionPath h2 task)
                 (<[artifactPath h2 task := pbf]> (delete (pbfPath h2 task) (fs h2)))
               !! recordPath h task = fs h !! recordPath h task).
  { change (regionPath (set_fs _ h2) task) with (regionPath h2 task).
    rewrite Hr2. now rewrite lookup_delete_ne. }
  destruct (Marshal_Progress _) as [completion|] eqn:Hm;
    [|now intros h' r [= <- <-]].
  destruct (record_fails run); [|now intros h' r [= <- <-]].
  intros h' r [= <- <-]. unfold WriteFile_failed.
  destruct (record_left run) as [n|]; [|exact H4].
  eexists. exists completion. split; [exact Hm|]. split; [reflexivity|].
  change (recordPath (set_progress _ (set_fs _ (set_fs _ h2))) task)
    with (recordPath h2 task).
  rewrite Hc2. simpl. apply lookup_insert_eq.
Qed.

(** X17: a run that returns an error has not written its completion record,
    unless the error is that of the write itself.  After any other error the
    file named by the identifier is as it was before the run; when
    [WriteFile] fails on the record, the file is as before if it could not
    be opened, and otherwise holds the bytes of the record that were written
    before the failure, a truncated document. *)
Theorem runTask_failed_record run task h h' e :
  runTask run task h = (h', Returned (Some e)) ->
  regionPath h task <> recordPath h task ->
  pbfPath h task <> recordPath h task ->
  (e <> ErrWriteRecord -> fs h' !! recordPath h task = fs h !! recordPath h task)
  /\ (e = ErrWriteRecord ->
      match record_left run with
      | None => fs h' !! recordPath h task = fs h !! recordPath h task
      | Some n =>
          exists p completion,
            Marshal_Progress p = Some completion /\ Complete p = true
            /\ fs h' !! recordPath h task = Some (substring 0 n completion)
      end).
Proof.
  intros H Hregion Hpbf.
  pose proof (runTask_record_file run task h Hregion Hpbf h' _ H) as Hfile.
  split.
  - intros He. destruct e; try exact Hfile. contradiction.
  - intros ->. exact Hfile.
Qed.

(** **** Interleavings *)

(** One block of some goroutine.  Any run of the server is a chain of such
    steps; which task a block is about is left free, so that the chains
    cover every schedule of handlers and workers. *)
Inductive step : Server -> Server -> Prop :=
| step_send task h h' :                         (* line 345 *)
    chan_send task h = Some h' -> step h h'
| step_POST_register task h :                   (* lines 347-349 *)
    step h (POST_register task h)
| step_recv task h h' :                         (* line 197 *)
    chan_recv h = Some (task, h') -> step h h'
| step_worker_register task h :                 (* lines 198-200 *)
    step h (worker_register task h)
| step_runTask run task h h' r :                (* line 202 *)
    runTask run task h = (h', r) -> step h h'
| step_capture e h :                            (* lines 204-206 *)
    step h (emit (CaptureException e) h)
| step_refresh o h :                            (* lines 359-372 *)
    step h (refresh o h).

Lemma read_lines_queue uuid lines : forall h h' r,
  read_lines uuid lines h = (h', r) -> queue h' = queue h.
Proof.
  induction lines as [|line rest IH]; intros h h' r; simpl.
  - now intros [= <- <-].
  - destruct (Decode_Progress line); [|now intros [= <- <-]].
    intros H. now rewrite (IH _ _ _ H).
Qed.

Lemma runTask_queue run task h h' r :
  runTask run task h = (h', r) -> queue h' = queue h.
Proof.
  unfold runTask, and_then, write_region, write_echo, extract, finish.
  destruct (create_fails run); [now intros [= <- <-]|].
  destruct (region_file task); [|now intros [= <- <-]].
  destruct (Marshal_Task task); [|now intros [= <- <-]].
  destruct (echo_fails run);
    [intros [= <- <-]; now destruct (echo_left run)|].
  destruct (start_fails run); [now intros [= <- <-]|].
  match goal with
  | |- context [read_lines ?u ?l ?s] =>
      destruct (read_lines u l s) as [h1 e] eqn:Hr;
      pose proof (read_lines_queue _ _ _ _ _ Hr) as Hq
  end.
  simpl in Hq. destruct e; [now intros [= <- <-]|].
  set (h2 := match artifact run with
             | Some bytes => set_fs (<[pbfPath h1 task := bytes]>) h1
             | None => h1
             end).
  assert (Hq2 : queue h2 = queue h) by (unfold h2; now destruct (artifact run)).
  clearbody h2.
  destruct (wait_fails run); [now intros [= <- <-]|].
  destruct (fs h2 !! pbfPath h2 task); [|now intros [= <- <-]].
  destruct (open_fails run); [now intros [= <- <-]|].
  destruct (stat_fails run); [now intros [= <- <-]|].
  destruct (rename_fails run); [now intros [= <- <-]|].
  destruct (remove_fails run); [now intros [= <- <-]|].
  destruct (Marshal_Progress _); [|now intros [= <- <-]].
  destruct (record_fails run); [|now intros [= <- <-]].
  intros [= <- <-]. now destruct (record_left run).
Qed.

Lemma refresh_queue o h : queue (refresh o h) = queue h.
Proof.
  unfold refresh. destruct (Qlt_le_dec 10 _); [|reflexivity].
  now destruct (time_Parse _).
Qed.

(** However handlers and workers interleave, the buffer never holds more
    than its 512 tasks. *)
Lemma step_queue_bounded h h' :
  step h h' ->
  (Z.of_nat (length (queue h)) <= capacity)%Z ->
  (Z.of_nat (length (queue h')) <= capacity)%Z.
Proof.
  intros Hs Hb. destruct Hs as [task h h' Hsend | | task h h' Hrecv | |
                                run task h h' r Hrun | | ]; simpl; try assumption.
  - now apply (chan_send_bounded task h h').
  - unfold chan_recv in Hrecv. destruct (queue h) as [|t q] eqn:Hq; [discriminate|].
    injection Hrecv as _ <-. simpl in *. lia.
  - now rewrite (runTask_queue _ _ _ _ _ Hrun).
  - now rewrite refresh_queue.
Qed.

(** X21: however handlers and workers interleave, a buffer that holds
    at most 512 tasks never comes to hold more. *)
Lemma reachable_queue_bounded h h' :
  rtc step h h' ->
  (Z.of_nat (length (queue h)) <= capacity)%Z ->
  (Z.of_nat (length (queue h')) <= capacity)%Z.
Proof. induction 1; eauto using step_queue_bounded. Qed.

(** **** The lines of the subprocess *)

(** Reading lines changes nothing but the registry entry of the task. *)
Lemma read_lines_only_entry uuid lines : forall h h' r,
  read_lines uuid lines h = (h', r) ->
  exists m, h' = set_progress (fun _ => m) h
            /\ forall k, k <> uuid -> m !! k = progress h !! k.
Proof.
  induction lines as [|line rest IH]; intros h h' r; simpl.
  - intros [= <- <-]. exists (progress h). split; [now destruct h | auto].
  - destruct (Decode_Progress line) as [p|].
    + intros H. destruct (IH _ _ _ H) as (m & -> & Hm).
      exists m. split; [reflexivity|].
      intros k Hk. rewrite (Hm k Hk). simpl. now rewrite lookup_insert_ne.
    + intros [= <- <-]. exists (progress h). split; [now destruct h | auto].
Qed.

Lemma read_lines_last uuid lines h :
  snd (read_lines uuid lines h) = None ->
  progress (fst (read_lines uuid lines h)) !! uuid
  = match last lines with
    | Some line => Decode_Progress line
    | None => progress h !! uuid
    end.
Proof.
  revert h. induction lines as [|line rest IH]; intros h; simpl; [reflexivity|].
  destruct (Decode_Progress line) as [p|] eqn:Hp; [|discriminate].
  intros H. rewrite (IH _ H). destruct rest as [|line' rest']; simpl.
  - now rewrite lookup_insert_eq.
  - rewrite last_cons. now destruct (last rest').
Qed.

(** X12: each line replaces the entry as a whole, so once every line has
    been read the registry holds the document of the last line, or what it
    held before when the subprocess printed nothing. *)
Theorem read_lines_last_line uuid lines h :
  snd (read_lines uuid lines h) = None ->
  progress (fst (read_lines uuid lines h)) !! uuid
  = match last lines with
    | Some line => Decode_Progress line
    | None => progress h !! uuid
    end.
Proof. apply read_lines_last. Qed.

(** X13: reading stops at the first line that does not parse: the error
    names that line, the registry holds the document of the line before it,
    and no later line is looked at. *)
Theorem read_lines_first_bad_line uuid good bad rest h :
  Forall (fun line => is_Some (Decode_Progress line)) good ->
  Decode_Progress bad = None ->
  snd (read_lines uuid (good ++ bad :: rest) h) = Some (ErrDecode bad)
  /\ read_lines uuid (good ++ bad :: rest) h
     = (fst (read_lines uuid good h), Some (ErrDecode bad)).
Proof.
  intros Hgood Hbad. revert h.
  induction Hgood as [|line good [p Hp] _ IH]; intros h; simpl.
  - rewrite Hbad. split; reflexivity.
  - rewrite Hp. apply IH.
Qed.

(** **** What one run touches *)

(** [h'] differs from [h] at most in the registry entry of the task and in
    the five files of the task. *)
Definition touches_only (task : Task) (h h' : Server) : Prop :=
  (forall k, k <> Uuid task -> progress h' !! k = progress h !! k)
  /\ queue h' = queue h
  /\ lastUpdated h' = lastUpdated h
  /\ (filesDir h', tmpDir h', exec h', data h', nodesLimit h')
     = (filesDir h, tmpDir h, exec h, data h, nodesLimit h)
  /\ (forall path,
        path <> regionPath h task -> path <> echoPath h task ->
        path <> pbfPath h task -> path <> artifactPath h task ->
        path <> recordPath h task ->
        fs h' !! path = fs h !! path)
  /\ image h' = image h.

Lemma touches_only_refl task h : touches_only task h h.
Proof. repeat split. Qed.

Lemma touches_only_trans task h1 h2 h3 :
  touches_only task h1 h2 -> touches_only task h2 h3 -> touches_only task h1 h3.
Proof.
  intros (Hp & Hq & Hl & Hc & Hf & Hi) (Hp' & Hq' & Hl' & Hc' & Hf' & Hi').
  injection Hc as Hfd Htd He Hd Hn.
  assert (Hpaths : regionPath h2 task = regionPath h1 task
                   /\ echoPath h2 task = echoPath h1 task
                   /\ pbfPath h2 task = pbfPath h1 task
                   /\ artifactPath h2 task = artifactPath h1 task
                   /\ recordPath h2 task = recordPath h1 task).
  { unfold regionPath, echoPath, pbfPath, artifactPath, recordPath.
    now rewrite Hfd, Htd. }
  destruct Hpaths as (P1 & P2 & P3 & P4 & P5).
  repeat split.
  - intros k Hk. now rewrite Hp', Hp.
  - congruence.
  - congruence.
  - rewrite Hc'. congruence.
  - intros path H1 H2 H3 H4 H5.
    rewrite Hf' by congruence. now apply Hf.
  - congruence.
Qed.

Lemma and_then_touches task (first second : Server -> Server * ending (option run_error)) :
  (forall h, touches_only task h (fst (first h))) ->
  (forall h, touches_only task h (fst (second h))) ->
  forall h, touches_only task h (fst (and_then first second h)).
Proof.
  intros Hf Hs h. unfold and_then. specialize (Hf h).
  destruct (first h) as [h1 [[e|]|]]; simpl in *; try exact Hf.
  eapply touches_only_trans; [exact Hf | apply Hs].
Qed.

Lemma write_region_touches run task h :
  touches_only task h (fst (write_region run task h)).
Proof.
  unfold write_region. destruct (create_fails run); [apply touches_only_refl|].
  destruct (region_file task); repeat split; intros; simpl;
    now rewrite lookup_insert_ne by auto.
Qed.

Lemma write_echo_touches run task h :
  touches_only task h (fst (write_echo run task h)).
Proof.
  unfold write_echo, WriteFile_failed.
  destruct (Marshal_Task task); [|apply touches_only_refl].
  destruct (echo_fails run); [destruct (echo_left run)|];
    try apply touches_only_refl;
    repeat split; intros; simpl; now rewrite lookup_insert_ne by auto.
Qed.

Lemma extract_touches run task h :
  touches_only task h (fst (extract run task h)).
Proof.
  unfold extract. destruct (start_fails run); [now repeat split|].
  match goal with
  | |- context [read_lines ?u ?l ?s] =>
      destruct (read_lines u l s) as [h1 e] eqn:Hr;
      destruct (read_lines_only_entry _ _ _ _ _ Hr) as (m & -> & Hm)
  end.
  simpl in Hm. destruct e; [now repeat split|].
  destruct (artifact run); destruct (wait_fails run);
    repeat split; intros; simpl; rewrite ?lookup_insert_ne by auto; auto.
Qed.

Lemma finish_touches run task h :
  touches_only task h (fst (finish run task h)).
Proof.
  unfold finish. destruct (fs h !! pbfPath h task); [|apply touches_only_refl].
  destruct (open_fails run); [apply touches_only_refl|].
  destruct (stat_fails run); [apply touches_only_refl|].
  destruct (rename_fails run); [apply touches_only_refl|].
  destruct (remove_fails run).
  { repeat split; intros; simpl.
    rewrite lookup_insert_ne by auto. now rewrite lookup_delete_ne by auto. }
  unfold WriteFile_failed.
  destruct (Marshal_Progress _);
    [destruct (record_fails run); [destruct (record_left run)|]|];
    repeat split; intros; simpl;
    rewrite ?lookup_delete_ne by auto;
    rewrite ?(lookup_insert_ne _ (recordPath _ _)) by auto;
    rewrite ?lookup_delete_ne by auto;
    rewrite ?lookup_insert_ne by auto;
    rewrite ?lookup_delete_ne by auto; auto.
Qed.

Lemma runTask_touches run task h :
  touches_only task h (fst (runTask run task h)).
Proof.
  apply (and_then_touches task (write_region run task)
           (and_then (write_echo run task)
              (and_then (extract run task) (finish run task)))
           (write_region_touches run task)).
  apply (and_then_touches task _ _ (write_echo_touches run task)).
  apply (and_then_touches task _ _ (extract_touches run task)
           (finish_touches run task)).
Qed.

(** X14: a run acts on its own task only: the registry entries of the other
    identifiers, the buffer, the freshness cache, the configuration and the
    raster are as before, and so is every file other than the five paths of
    the task (region description, submission echo, temporary and final
    artifact, completion record). *)
Theorem runTask_frame run task h :
  let h' := fst (runTask run task h) in
  (forall k, k <> Uuid task -> progress h' !! k = progress h !! k)
  /\ queue h' = queue h
  /\ lastUpdated h' = lastUpdated h
  /\ (filesDir h', tmpDir h', exec h', data h', nodesLimit h')
     = (filesDir h, tmpDir h, exec h, data h, nodesLimit h)
  /\ (forall path,
        path <> regionPath h task -> path <> echoPath h task ->
        path <> pbfPath h task -> path <> artifactPath h task ->
        path <> recordPath h task ->
        fs h' !! path = fs h !! path)
  /\ image h' = image h.
Proof. apply runTask_touches. Qed.

(** **** When a run removes the registry entry *)

(** The run got as far as line 178. *)
Definition reached_cleanup (r : ending (option run_error)) : Prop :=
  r = Returned None \/ r = Returned (Some ErrMarshalProgress)
  \/ r = Returned (Some ErrWriteRecord).

(** A block that comes before line 178 keeps the entry and returns none of
    the errors that come after it. *)
Definition keeps_entry (uuid : string)
                       (block : Server -> Server * ending (option run_error)) : Prop :=
  forall h, is_Some (progress h !! uuid) ->
            is_Some (progress (fst (block h)) !! uuid)
            /\ (snd (block h) = Returned None \/ ~ reached_cleanup (snd (block h))).

Definition entry_gone_iff_cleanup (uuid : string)
                                  (block : Server -> Server * ending (option run_error)) : Prop :=
  forall h, is_Some (progress h !! uuid) ->
            (progress (fst (block h)) !! uuid = None <-> reached_cleanup (snd (block h))).

Lemma and_then_entry uuid first second :
  keeps_entry uuid first -> entry_gone_iff_cleanup uuid second ->
  entry_gone_iff_cleanup uuid (and_then first second).
Proof.
  intros Hf Hs h Hh. unfold and_then. destruct (Hf h Hh) as [Hk Hr].
  destruct (first h) as [h1 r]. simpl in Hk, Hr.
  destruct r as [[e|]|]; try (now apply Hs);
    (destruct Hr as [Hr|Hr]; [discriminate|]); simpl; split.
  - intros Hn. rewrite Hn in Hk. now destruct Hk.
  - intros Hc. contradiction.
  - intros Hn. rewrite Hn in Hk. now destruct Hk.
  - intros Hc. contradiction.
Qed.

Lemma write_region_keeps run task : keeps_entry (Uuid task) (write_region run task).
Proof.
  intros h Hh. unfold write_region, reached_cleanup.
  destruct (create_fails run); [|destruct (region_file task)]; simpl;
    (split; [exact Hh|]); try (now left); right; intros [H|[H|H]]; discriminate.
Qed.

Lemma write_echo_keeps run task : keeps_entry (Uuid task) (write_echo run task).
Proof.
  intros h Hh. unfold write_echo, WriteFile_failed, reached_cleanup.
  destruct (Marshal_Task task);
    [destruct (echo_fails run); [destruct (echo_left run)|]|]; simpl;
    (split; [exact Hh|]); try (now left); right; intros [H|[H|H]]; discriminate.
Qed.

Lemma extract_keeps run task : keeps_entry (Uuid task) (extract run task).
Proof.
  intros h Hh. unfold extract, reached_cleanup.
  destruct (start_fails run).
  { simpl. split; [exact Hh|]. right. intros [H|[H|H]]; discriminate. }
  match goal with
  | |- context [read_lines ?u ?l ?s] =>
      destruct (read_lines u l s) as [h1 e] eqn:Hr;
      destruct (read_lines_keeps _ _ _ _ _ Hr) as (Hk & _)
  end.
  specialize (Hk Hh). destruct e as [e|].
  { simpl. split; [exact Hk|]. right.
    apply (f_equal snd) in Hr. simpl in Hr. intros [H|[H|H]]; try discriminate;
      injection H as ->.
    - clear -Hr. revert Hr. generalize (emit (Exec (exec h)
        ["extract"; data h; pbfPath h task; "--jsonOutput"; "--region";
         regionPath h task]) h).
      induction (stdout_lines run) as [|line rest IH]; intros s; simpl;
        [discriminate|].
      destruct (Decode_Progress line); [apply IH | discriminate].
    - clear -Hr. revert Hr. generalize (emit (Exec (exec h)
        ["extract"; data h; pbfPath h task; "--jsonOutput"; "--region";
         regionPath h task]) h).
      induction (stdout_lines run) as [|line rest IH]; intros s; simpl;
        [discriminate|].
      destruct (Decode_Progress line); [apply IH | discriminate]. }
  destruct (artifact run); destruct (wait_fails run); simpl;
    (split; [exact Hk|]); try (now left); right; intros [H|[H|H]]; discriminate.
Qed.

Lemma finish_entry run task : entry_gone_iff_cleanup (Uuid task) (finish run task).
Proof.
  intros h Hh. unfold finish, reached_cleanup.
  assert (Hne : progress h !! Uuid task <> None) by (destruct Hh as [p ->]; discriminate).
  destruct (fs h !! pbfPath h task);
    [|simpl; split; [contradiction | intros [H|[H|H]]; discriminate]].
  destruct (open_fails run);
    [simpl; split; [contradiction | intros [H|[H|H]]; discriminate]|].
  destruct (stat_fails run);
    [simpl; split; [contradiction | intros [H|[H|H]]; discriminate]|].
  destruct (rename_fails run);
    [simpl; split; [contradiction | intros [H|[H|H]]; discriminate]|].
  destruct (remove_fails run);
    [simpl; split; [contradiction | intros [H|[H|H]]; discriminate]|].
  unfold WriteFile_failed.
  destruct (Marshal_Progress _);
    [destruct (record_fails run); [destruct (record_left run)|]|]; simpl;
    (split; [intros _; auto | intros _; apply lookup_delete_eq]).
Qed.

(** X15: after the worker has run a task, its registry entry is gone exactly
    when the run got as far as line 178: it returned [nil], or failed to
    serialize or to write the completion record.  Every other error, and a
    panic, leaves the entry in the registry. *)
Theorem worker_turn_entry run task h :
  progress (fst (runTask run task (worker_register task h))) !! Uuid task = None
  <-> reached_cleanup (snd (runTask run task (worker_register task h))).
Proof.
  apply (and_then_entry (Uuid task) _ _ (write_region_keeps run task)
           (and_then_entry (Uuid task) _ _ (write_echo_keeps run task)
              (and_then_entry (Uuid task) _ _ (extract_keeps run task)
                 (finish_entry run task)))).
  unfold worker_register. simpl. rewrite lookup_insert_eq. eauto.
Qed.

(** **** A run that succeeds *)

(** The final record of lines 181-184. *)
Definition completed (p : Progress) (size : Z) (elapsed : Q) : Progress :=
  {| Timestamp := Timestamp p; CellsTotal := CellsTotal p; CellsProg := CellsProg p;
     NodesTotal := NodesTotal p; NodesProg := NodesProg p;
     ElemsTotal := ElemsTotal p; ElemsProg := ElemsProg p;
     SizeBytes := size; Elapsed := elapsed; Complete := true |}.

Lemma and_then_ok first second h h' :
  and_then first second h = (h', Returned None) ->
  exists h1, first h = (h1, Returned None) /\ second h1 = (h', Returned None).
Proof.
  unfold and_then. destruct (first h) as [h1 [[e|]|]]; try discriminate. eauto.
Qed.

Lemma write_region_ok run task h h' :
  write_region run task h = (h', Returned None) ->
  exists bytes, region_file task = Some bytes
                /\ h' = set_fs (<[regionPath h task
                                   := written (region_short run) bytes]>) h.
Proof.
  unfold write_region. destruct (create_fails run); [discriminate|].
  destruct (region_file task) as [bytes|]; [|discriminate].
  intros [= <-]. eauto.
Qed.

Lemma write_echo_ok run task h h' :
  write_echo run task h = (h', Returned None) ->
  exists taskJson, Marshal_Task task = Some taskJson
                   /\ h' = set_fs (<[echoPath h task := taskJson]>) h.
Proof.
  unfold write_echo. destruct (Marshal_Task task) as [taskJson|]; [|discriminate].
  destruct (echo_fails run); [discriminate|]. intros [= <-]. eauto.
Qed.

Lemma extract_ok run task h h' :
  extract run task h = (h', Returned None) ->
  exists m,
    m !! Uuid task = match last (stdout_lines run) with
                     | Some line => Decode_Progress line
                     | None => progress h !! Uuid task
                     end
    /\ h' = set_fs (match artifact run with
                    | Some bytes => <[pbfPath h task := bytes]>
                    | None => fun files => files
                    end)
              (set_progress (fun _ => m)
                 (emit (Exec (exec h)
                          ["extract"; data h; pbfPath h task; "--jsonOutput";
                           "--region"; regionPath h task]) h)).
Proof.
  unfold extract. destruct (start_fails run); [discriminate|].
  match goal with
  | |- context [read_lines ?u ?l ?s] =>
      pose proof (read_lines_last u l s) as Hlast;
      destruct (read_lines u l s) as [h1 e] eqn:Hr;
      destruct (read_lines_only_entry _ _ _ _ _ Hr) as (m & -> & _)
  end.
  destruct e; [discriminate|]. specialize (Hlast eq_refl). simpl in Hlast.
  destruct (artifact run); destruct (wait_fails run); try discriminate;
    intros [= <-]; exists m; (split; [exact Hlast|]); reflexivity.
Qed.

Lemma finish_ok run task h h' :
  finish run task h = (h', Returned None) ->
  exists pbf completion,
    fs h !! pbfPath h task = Some pbf
    /\ Marshal_Progress
         (completed (default Progress_zero (progress h !! Uuid task))
                    (Z.of_nat (String.length pbf)) (seconds run))
       = Some completion
    /\ h' = set_fs (fun files =>
                      <[recordPath h task := completion]>
                        (delete (regionPath h task)
                           (<[artifactPath h task := pbf]>
                              (delete (pbfPath h task) files))))
              (set_progress (delete (Uuid task)) h).
Proof.
  unfold finish. destruct (fs h !! pbfPath h task) as [pbf|]; [|discriminate].
  destruct (open_fails run); [discriminate|].
  destruct (stat_fails run); [discriminate|].
  destruct (rename_fails run); [discriminate|].
  destruct (remove_fails run); [discriminate|].
  simpl progress.
  destruct (Marshal_Progress _) as [completion|] eqn:Hm; [|discriminate].
  destruct (record_fails run); [discriminate|].
  intros [= <-]. exists pbf, completion. repeat split. exact Hm.
Qed.

Lemma runTask_ok_state run task h h' :
  runTask run task h = (h', Returned None) ->
  regionPath h task <> recordPath h task ->
  regionPath h task <> artifactPath h task ->
  exists pbf completion,
    progress h' !! Uuid task = None
    /\ fs h' !! recordPath h task = Some completion
    /\ Marshal_Progress
         (completed
            (default Progress_zero
               match last (stdout_lines run) with
               | Some line => Decode_Progress line
               | None => progress h !! Uuid task
               end)
            (Z.of_nat (String.length pbf)) (seconds run))
       = Some completion
    /\ fs h' !! artifactPath h task = Some pbf
    /\ fs h' !! regionPath h task = None
    /\ match artifact run with Some bytes => pbf = bytes | None => True end.
Proof.
  intros H Hrr Hra. unfold runTask in H.
  destruct (and_then_ok _ _ _ _ H) as (h1 & H1 & H1').
  destruct (and_then_ok _ _ _ _ H1') as (h2 & H2 & H2').
  destruct (and_then_ok _ _ _ _ H2') as (h3 & H3 & H4).
  destruct (write_region_ok _ _ _ _ H1) as (bytes & _ & ->).
  destruct (write_echo_ok _ _ _ _ H2) as (taskJson & _ & ->).
  destruct (extract_ok _ _ _ _ H3) as (m & Hm & ->).
  destruct (finish_ok _ _ _ _ H4) as (pbf & completion & Hpbf & Hc & ->).
  simpl in Hm, Hc. rewrite Hm in Hc.
  assert (Har : artifactPath h task <> recordPath h task)
    by (apply Join_suffix_ne; [reflexivity | simpl; lia]).
  exists pbf, completion.
  unfold recordPath, artifactPath, regionPath, pbfPath, echoPath in *.
  cbn [filesDir tmpDir fs progress set_fs set_progress emit] in *.
  repeat split.
  - apply lookup_delete_eq.
  - apply lookup_insert_eq.
  - exact Hc.
  - rewrite lookup_insert_ne by (intros E; apply Har; now rewrite E).
    rewrite lookup_delete_ne by exact Hra.
    apply lookup_insert_eq.
  - rewrite lookup_insert_ne by (intros E; apply Hrr; now rewrite E).
    apply lookup_delete_eq.
  - destruct (artifact run) as [art|]; [|exact I].
    rewrite lookup_insert_eq in Hpbf. congruence.
Qed.

(** X16: when [runTask] returns [nil], the registry entry of the task is
    gone; the completion record under the identifier is the serialization of
    the last progress document received (the zero document if none was),
    with the completion flag set, the elapsed time and the size of the
    artifact; the artifact is in the files directory and the region
    description is removed. *)
Theorem runTask_success run task h h' :
  runTask run task h = (h', Returned None) ->
  regionPath h task <> recordPath h task ->
  regionPath h task <> artifactPath h task ->
  exists pbf completion,
    progress h' !! Uuid task = None
    /\ fs h' !! recordPath h task = Some completion
    /\ Marshal_Progress
         (completed
            (default Progress_zero
               match last (stdout_lines run) with
               | Some line => Decode_Progress line
               | None => progress h !! Uuid task
               end)
            (Z.of_nat (String.length pbf)) (seconds run))
       = Some completion
    /\ fs h' !! artifactPath h task = Some pbf
    /\ fs h' !! regionPath h task = None
    /\ match artifact run with Some bytes => pbf = bytes | None => True end.
Proof. apply runTask_ok_state. Qed.

(** **** Routing of [GET /api/<id>] *)

Lemma plain_snoc cur c :
  plain cur = true -> c <> "/"%char -> plain (cur ++ String c "") = true.
Proof.
  intros Hcur Hc. induction cur as [|d cur IH].
  - simpl. apply Ascii.eqb_neq in Hc. now rewrite Hc.
  - change (plain (String d (cur ++ String c "")) = true).
    simpl in *. destruct (Ascii.eqb d "/"%char); [discriminate|]. now apply IH.
Qed.

Lemma split_slash_from_cons s : forall cur,
  exists p ps, split_slash_from cur s = p :: ps.
Proof.
  induction s as [|c s IH]; intros cur; simpl; [eauto|].
  destruct (Ascii.eqb c "/"%char); eauto.
Qed.

(** The segments joined by slashes give the path back, and none of them
    holds a slash. *)
Lemma split_slash_from_join s : forall cur,
  plain cur = true ->
  String.concat "/" (split_slash_from cur s) = cur ++ s
  /\ Forall (fun part => plain part = true) (split_slash_from cur s).
Proof.
  induction s as [|c s IH]; intros cur Hcur; simpl.
  - split; [now rewrite append_empty | now constructor].
  - destruct (Ascii.eqb_spec c "/"%char) as [->|Hc].
    + destruct (IH "" eq_refl) as [Hj Hf]. split; [|now constructor].
      destruct (split_slash_from_cons s "") as (p & ps & Hs).
      rewrite Hs in Hj |- *.
      change (cur ++ "/" ++ String.concat "/" (p :: ps) = cur ++ String "/" s).
      now rewrite Hj.
    + destruct (IH (cur ++ String c "") (plain_snoc cur c Hcur Hc)) as [Hj Hf].
      split; [|exact Hf]. now rewrite Hj, append_snoc.
Qed.

Lemma split_slash_api id :
  plain id = true -> split_slash ("/api/" ++ id) = [""; "api"; id].
Proof.
  intros Hp.
  change (split_slash ("/api/" ++ id)) with ("" :: "api" :: split_slash_from "" id).
  now rewrite (split_slash_from_plain id "" Hp).
Qed.

(** [GET_task] on a path of the expected shape, and the shape of every
    path that it does not answer with 404. *)
Lemma GET_task_plain r h id :
  Path r = "/api/" ++ id -> plain id = true ->
  GET_task r h
  = match progress h !! id with
    | Some p => respond_typed "application/json" (JSONProgress p)
    | None =>
        match fs h !! Join (filesDir h) id with
        | Some bytes => respond_typed "application/json" (Bytes bytes)
        | None =>
            if is_dir (Join (filesDir h) id)
            then respond_typed "application/json" (Bytes "")
            else respond 404 NoBody
        end
    end.
Proof.
  intros Hpath Hp. unfold GET_task. rewrite Hpath, (split_slash_api id Hp).
  reflexivity.
Qed.

Lemma GET_task_shape r h :
  code (GET_task r h) <> 404%Z ->
  exists id, Path r = "/api/" ++ id /\ plain id = true.
Proof.
  unfold GET_task, split_slash.
  destruct (split_slash_from_join (Path r) "" eq_refl) as [Hj Hf].
  destruct (split_slash_from "" (Path r)) as [|p0 [|p1 [|id [|more rest]]]];
    try (intros H; now contradiction H).
  destruct (String.eqb_spec p0 "") as [->|]; [|intros H; now contradiction H].
  destruct (String.eqb_spec p1 "api") as [->|]; [|intros H; now contradiction H].
  intros _. exists id. split.
  - symmetry. exact Hj.
  - inversion Hf as [|? ? _ Hf1]; subst. inversion Hf1 as [|? ? _ Hf2]; subst.
    now inversion Hf2.
Qed.

(** X8: a request that is not a POST, for [/api/<id>] with an identifier
    that has no slash and is neither empty nor [nodes.png], is a query for
    the task: [ServeHTTP] answers it from the registry if the identifier has
    an entry there, else with what can be read at [filepath.Join(filesDir,
    id)] when [os.Stat] finds that path (the bytes of a file, nothing for a
    directory, as for the identifiers [.] and [..]), and with 404 otherwise;
    the server is left as it was.  Whatever is not answered 404 was asked
    for under [/api] or under [/api/<id>] with no further slash. *)
Theorem GET_task_routing o r h :
  Method r <> "POST" ->
  (forall id,
     Path r = "/api/" ++ id -> plain id = true -> id <> "" -> id <> "nodes.png" ->
     ServeHTTP o r h
     = (h, Returned
             match progress h !! id with
             | Some p => respond_typed "application/json" (JSONProgress p)
             | None =>
                 match fs h !! Join (filesDir h) id with
                 | Some bytes => respond_typed "application/json" (Bytes bytes)
                 | None =>
                     if is_dir (Join (filesDir h) id)
                     then respond_typed "application/json" (Bytes "")
                     else respond 404 NoBody
                 end
             end))
  /\ (forall w,
        snd (ServeHTTP o r h) = Returned w -> code w <> 404%Z ->
        Path r = "/api" \/ exists id, Path r = "/api/" ++ id /\ plain id = true).
Proof.
  intros Hm. unfold ServeHTTP.
  destruct (String.eqb_spec (Method r) "POST") as [?|_]; [contradiction|].
  split.
  - intros id Hpath Hp Hne Hpng.
    destruct (String.eqb_spec (Path r) "/api") as [E|_].
    { rewrite Hpath in E. cbv in E. discriminate E. }
    destruct (String.eqb_spec (Path r) "/api/") as [E|_].
    { rewrite Hpath in E. cbv in E. injection E as E. contradiction. }
    destruct (String.eqb_spec (Path r) "/api/nodes.png") as [E|_].
    { rewrite Hpath in E. cbv in E. injection E as E. contradiction. }
    cbn [orb]. now rewrite (GET_task_plain r h id Hpath Hp).
  - intros w.
    destruct (String.eqb_spec (Path r) "/api") as [E|_]; [now left|].
    destruct (String.eqb_spec (Path r) "/api/") as [E|_].
    { intros _ _. right. exists "". now split. }
    destruct (String.eqb_spec (Path r) "/api/nodes.png") as [E|_].
    { intros _ _. right. exists "nodes.png". now split. }
    cbn [orb snd]. intros [= <-] Hc. right. now apply (GET_task_shape r h).
Qed.


(** **** What a request can do *)

Lemma POST_cases o r h :
  exists w, snd (POST o r h) = Returned w
    /\ ((code w = 201%Z /\ sent w = Text (uuid_New o)
         /\ (Z.of_nat (length (queue h)) < capacity)%Z
         /\ exists task,
              Uuid task = uuid_New o
              /\ fst (POST o r h)
                 = set_progress (<[uuid_New o := Progress_zero]>)
                     (set_queue (queue h ++ [task])%list h)
              /\ exists p, parse (Body r) = inl p
                           /\ SanitizedName task = sanitized_name coord p
                           /\ SanitizedRegionType task = sanitized_type coord p
                           /\ SanitizedRegionData task = sanitized_region coord p)
        \/ (code w = 400%Z /\ fst (POST o r h) = h)
        \/ (code w = 503%Z /\ fst (POST o r h) = h
            /\ (capacity <= Z.of_nat (length (queue h)))%Z)).
Proof.
  unfold POST. destruct (parse (Body r)) as [p|e] eqn:Hp.
  - destruct (GetSum_total (Geometry coord) tilecover (image h) (geom coord p))
      as [sum Hsum].
    unfold estimate. rewrite Hsum.
    destruct (nodesLimit h <? sum)%Z.
    + eexists. split; [reflexivity|]. right. left. split; reflexivity.
    + unfold submit, chan_send.
      destruct (Z.ltb_spec (Z.of_nat (length (queue h))) capacity) as [Hlt|Hge].
      * eexists. split; [reflexivity|]. left. repeat split; [exact Hlt|].
        exists {| Uuid := uuid_New o;
                  SanitizedName := sanitized_name coord p;
                  SanitizedRegionType := sanitized_type coord p;
                  SanitizedRegionData := sanitized_region coord p |}.
        split; [reflexivity|]. split; [reflexivity|].
        exists p. repeat split.
      * eexists. split; [reflexivity|]. right. right. repeat split. exact Hge.
  - eexists. split; [reflexivity|]. right. left. split; reflexivity.
Qed.


Lemma GET_task_code r h : code (GET_task r h) = 200%Z \/ code (GET_task r h) = 404%Z.
Proof.
  unfold GET_task.
  destruct (split_slash (Path r)) as [|p0 [|p1 [|uuid [|more rest]]]]; auto.
  destruct (negb _ || negb _); auto.
  destruct (progress h !! uuid); auto. cbv zeta.
  destruct (fs h !! _); auto. destruct (is_dir _); auto.
Qed.

(** X6: every request is answered, whatever the server holds: the handler
    never panics, and the status is 200, 201, 400, 404 or 503. *)
Theorem ServeHTTP_responds o r h :
  exists w, snd (ServeHTTP o r h) = Returned w
            /\ In (code w) [200; 201; 400; 404; 503]%Z.
Proof.
  unfold ServeHTTP. destruct (String.eqb (Method r) "POST").
  - destruct (POST_cases o r h) as (w & Hw & [H|[H|H]]);
      exists w; (split; [exact Hw|]); simpl;
      [destruct H as (-> & _) | destruct H as (-> & _) | destruct H as (-> & _)];
      auto 6.
  - destruct (String.eqb (Path r) "/api" || String.eqb (Path r) "/api/").
    + eexists. split; [reflexivity|]. simpl. auto.
    + destruct (String.eqb (Path r) "/api/nodes.png").
      * eexists. split; [reflexivity|]. simpl. auto.
      * eexists. split; [reflexivity|]. simpl.
        destruct (GET_task_code r h) as [-> | ->]; auto 6.
Qed.

(** X7: A request that is not a POST creates and removes nothing: the buffer,
    the registry and the files are as before; at most the freshness cache
    is refreshed. *)
Theorem GET_changes_nothing o r h :
  Method r <> "POST" ->
  progress (fst (ServeHTTP o r h)) = progress h
  /\ queue (fst (ServeHTTP o r h)) = queue h
  /\ fs (fst (ServeHTTP o r h)) = fs h.
Proof.
  intros Hm. unfold ServeHTTP.
  destruct (String.eqb_spec (Method r) "POST") as [?|_]; [contradiction|].
  destruct (String.eqb (Path r) "/api" || String.eqb (Path r) "/api/").
  - simpl. unfold refresh. destruct (Qlt_le_dec 10 _); [|now repeat split].
    now destruct (time_Parse _).
  - now destruct (String.eqb (Path r) "/api/nodes.png").
Qed.

(** **** Repeated status queries *)

(** X10: after a timestamp query whose output parsed, status requests within
    the next 10 seconds launch no query and leave the cache alone. *)
Theorem refresh_then_quiet o1 o2 h t :
  (10 * Second < now_check o1 - checkedAt (lastUpdated h))%Z ->
  time_Parse (TrimSpace (query_output o1)) = Some t ->
  (now_check o2 - now_stamp o1 <= 10 * Second)%Z ->
  refresh o2 (refresh o1 h) = refresh o1 h
  /\ lastUpdated (refresh o1 h) = {| timestamp := t; checkedAt := now_stamp o1 |}.
Proof.
  intros Hdue Hparse Hsoon. rewrite (refresh_due o1 h Hdue). cbv zeta.
  rewrite Hparse. split; [|reflexivity].
  apply refresh_not_due. exact Hsoon.
Qed.

(** X11: A timestamp query whose output does not parse does not move the check
    time: the next status request launches the query again, however soon
    it comes. *)
Theorem refresh_failure_retried o1 o2 h :
  (10 * Second < now_check o1 - checkedAt (lastUpdated h))%Z ->
  time_Parse (TrimSpace (query_output o1)) = None ->
  (now_check o1 <= now_check o2)%Z ->
  lastUpdated (refresh o1 h) = lastUpdated h
  /\ events (refresh o2 (refresh o1 h))
     = (events h ++ [Exec (exec h) ["query"; data h; "timestamp"];
                     Exec (exec h) ["query"; data h; "timestamp"]])%list.
Proof.
  intros Hdue Hparse Hlater. rewrite (refresh_due o1 h Hdue). cbv zeta.
  rewrite Hparse. split; [reflexivity|].
  rewrite refresh_due by (simpl; lia). cbv zeta.
  destruct (time_Parse (TrimSpace (query_output o2))); simpl;
    now rewrite <- app_assoc.
Qed.

(** **** The slice of line 117 *)

(** X19: the slice [data[1 : len(data)-1]] panics exactly for a bbox payload of
    fewer than two bytes; the panic happens after the region file has been
    created, before anything is written to it, and ends [runTask] without
    an error value.  A bbox payload of two bytes or more loses its first and
    its last byte, whatever they are: what lies between them is what
    [runTask] writes to the region file before it goes on to the echo of
    the submission (all of it, or the bytes written when the write stops
    early, its error being dropped). *)
Theorem region_file_panic run task h :
  (region_file task = None
   <-> SanitizedRegionType task = "bbox"
       /\ (String.length (SanitizedRegionData task) < 2)%nat)
  /\ (create_fails run = false -> region_file task = None ->
      runTask run task h = (set_fs (<[regionPath h task := ""]>) h, Panicked))
  /\ (SanitizedRegionType task = "bbox" ->
      (2 <= String.length (SanitizedRegionData task))%nat ->
      exists first inner final,
        SanitizedRegionData task = String first (inner ++ String final "")
        /\ region_file task = Some inner
        /\ (create_fails run = false ->
            runTask run task h
            = and_then (write_echo run task)
                (and_then (extract run task) (finish run task))
                (set_fs (<[regionPath h task := written (region_short run) inner]>)
                        h))).
Proof.
  split; [|split].
  - unfold region_file, slice.
    destruct (String.eqb_spec (SanitizedRegionType task) "bbox") as [Ht|Ht].
    + set (n := String.length (SanitizedRegionData task)).
      destruct (Z.leb_spec 0 1) as [_|?]; [|lia].
      destruct (Z.leb_spec 1 (Z.of_nat n - 1)) as [H1|H1];
        destruct (Z.leb_spec (Z.of_nat n - 1) (Z.of_nat n)) as [H2|H2];
        try lia; simpl andb; cbv iota.
      * split; [discriminate | intros [_ ?]; lia].
      * split; [intros _; split; [exact Ht | lia] | reflexivity].
    + split; [discriminate | intros [? _]; contradiction].
  - intros Hc Hnone. unfold runTask, and_then, write_region.
    now rewrite Hc, Hnone.
  - intros Ht Hlen.
    destruct (string_ends _ Hlen) as (first & inner & final & Hd).
    exists first, inner, final. split; [exact Hd|].
    assert (Hfile : region_file task = Some inner).
    { unfold region_file. rewrite Ht, Hd. simpl String.eqb. cbv iota.
      apply slice_ends. }
    split; [exact Hfile|].
    intros Hc. unfold runTask at 1. unfold and_then at 1. unfold write_region.
    now rewrite Hc, Hfile.
Qed.

(** **** The subprocess is launched at most once *)

(** The lines before line 132 run ahead of the subprocess. *)
Definition prepared (run : Run) (task : Task) : bool :=
  negb (create_fails run)
  && match region_file task with Some _ => true | None => false end
  && match Marshal_Task task with Some _ => true | None => false end
  && negb (echo_fails run).

Lemma finish_events run task h : events (fst (finish run task h)) = events h.
Proof.
  unfold finish. destruct (fs h !! pbfPath h task); [|reflexivity].
  destruct (open_fails run); [reflexivity|].
  destruct (stat_fails run); [reflexivity|].
  destruct (rename_fails run); [reflexivity|].
  destruct (remove_fails run); [reflexivity|].
  unfold WriteFile_failed.
  destruct (Marshal_Progress _);
    [destruct (record_fails run); [destruct (record_left run)|]|]; reflexivity.
Qed.

Lemma runTask_events run task h :
  events (fst (runTask run task h))
  = (events h
     ++ if prepared run task
        then [Exec (exec h) ["extract"; data h; pbfPath h task; "--jsonOutput";
                             "--region"; regionPath h task]]
        else [])%list.
Proof.
  unfold runTask, and_then, write_region, write_echo, prepared.
  destruct (create_fails run); [simpl; now rewrite app_nil_r|].
  destruct (region_file task); [|simpl; now rewrite app_nil_r].
  destruct (Marshal_Task task); [|simpl; now rewrite app_nil_r].
  destruct (echo_fails run);
    [unfold WriteFile_failed; destruct (echo_left run); simpl;
     now rewrite app_nil_r|].
  simpl negb. simpl andb. cbv iota.
  unfold extract. destruct (start_fails run); [reflexivity|].
  match goal with
  | |- context [read_lines ?u ?l ?s] =>
      destruct (read_lines u l s) as [h1 e] eqn:Hr;
      destruct (read_lines_only_entry _ _ _ _ _ Hr) as (m & -> & _)
  end.
  destruct e; [reflexivity|].
  destruct (artifact run); destruct (wait_fails run); try reflexivity;
    rewrite finish_events; reflexivity.
Qed.

(** X20: one turn of the worker leaves at most two traces outside: the
    extraction is launched once, and only when the region file and the
    submission echo were written first; the error that [runTask] returned
    is handed to Sentry once.  A run that succeeds or panics reports
    nothing. *)
Theorem worker_turn_events run task h :
  events (fst (worker_handle run task h))
  = (events h
     ++ (if prepared run task
         then [Exec (exec h) ["extract"; data h; pbfPath h task; "--jsonOutput";
                              "--region"; regionPath h task]]
         else [])
     ++ match snd (runTask run task (worker_register task h)) with
        | Returned (Some err) => [CaptureException err]
        | _ => []
        end)%list.
Proof.
  unfold worker_handle.
  pose proof (runTask_events run task (worker_register task h)) as He.
  destruct (runTask run task (worker_register task h)) as [h1 [[err|]|]];
    simpl in *; rewrite He; now rewrite ?app_nil_r, ?app_assoc.
Qed.

(** **** The region-description file through a run *)

(** The lines before line 132 succeed: the run goes on to the subprocess
    with the region file and the echo in place. *)
Lemma runTask_prepared run task h :
  prepared run task = true ->
  exists bytes taskJson,
    region_file task = Some bytes /\ Marshal_Task task = Some taskJson
    /\ runTask run task h
       = and_then (extract run task) (finish run task)
           (set_fs (<[echoPath h task := taskJson]>)
              (set_fs (<[regionPath h task := written (region_short run) bytes]>)
                      h)).
Proof.
  unfold prepared, runTask. unfold and_then at 1 2. unfold write_region, write_echo.
  destruct (create_fails run); [discriminate|].
  destruct (region_file task) as [bytes|]; [|discriminate].
  destruct (Marshal_Task task) as [taskJson|]; [|discriminate].
  destruct (echo_fails run); [discriminate|].
  intros _. exists bytes, taskJson. repeat split.
Qed.

Section RegionFile.

Variables (run : Run) (task : Task) (h0 : Server) (content : string).
Hypothesis Hecho : regionPath h0 task <> echoPath h0 task.
Hypothesis Hpbf : regionPath h0 task <> pbfPath h0 task.
Hypothesis Hart : regionPath h0 task <> artifactPath h0 task.
Hypothesis Hrec : regionPath h0 task <> recordPath h0 task.

(** The region file holds [content], and the directories are those of
    [h0]. *)
Definition region_kept (h : Server) : Prop :=
  fs h !! regionPath h0 task = Some content
  /\ filesDir h = filesDir h0 /\ tmpDir h = tmpDir h0.

(** A block before line 171: it keeps the file, and it returns [nil] or an
    error that comes before the removal. *)
Definition keeps_region (block : Server -> Server * ending (option run_error))
  : Prop :=
  forall h, region_kept h ->
            region_kept (fst (block h))
            /\ (snd (block h) = Returned None
                \/ (snd (block h) <> Panicked /\ ~ reached_cleanup (snd (block h)))).

(** A block that ends the run: the file is gone exactly when line 171 was
    passed. *)
Definition removes_region (block : Server -> Server * ending (option run_error))
  : Prop :=
  forall h, region_kept h ->
            snd (block h) <> Panicked
            /\ (reached_cleanup (snd (block h)) ->
                fs (fst (block h)) !! regionPath h0 task = None)
            /\ (~ reached_cleanup (snd (block h)) ->
                fs (fst (block h)) !! regionPath h0 task = Some content).

Lemma and_then_region first second :
  keeps_region first -> removes_region second ->
  removes_region (and_then first second).
Proof.
  intros Hf Hs h Hh. unfold and_then. destruct (Hf h Hh) as [Hk Hr].
  destruct (first h) as [h1 r]. simpl in Hk, Hr.
  destruct Hr as [-> | [Hp Hn]]; [now apply Hs|].
  destruct r as [[e|]|]; simpl.
  - split; [discriminate|]. split; [contradiction | intros _; apply Hk].
  - now apply Hs.
  - contradiction.
Qed.

Lemma not_reached e :
  e <> ErrMarshalProgress -> e <> ErrWriteRecord ->
  ~ reached_cleanup (Returned (Some e)).
Proof. intros H1 H2 [H|[H|H]]; congruence. Qed.

Lemma write_echo_region : keeps_region (write_echo run task).
Proof.
  intros h (Hfile & Hfd & Htd). unfold write_echo.
  assert (He : echoPath h task = echoPath h0 task)
    by (unfold echoPath; now rewrite Hfd).
  destruct (Marshal_Task task) as [taskJson|]; simpl.
  2:{ split; [now repeat split|]. right. split; [discriminate|].
      now apply not_reached. }
  destruct (echo_fails run); simpl.
  - split.
    + unfold WriteFile_failed. destruct (echo_left run); [|now repeat split].
      repeat split; try assumption. simpl. rewrite He.
      now rewrite lookup_insert_ne by auto.
    + right. split; [discriminate|]. now apply not_reached.
  - split; [|now left]. repeat split; try assumption. simpl. rewrite He.
    now rewrite lookup_insert_ne by auto.
Qed.

Lemma extract_region : keeps_region (extract run task).
Proof.
  intros h (Hfile & Hfd & Htd). unfold extract.
  assert (Hp : pbfPath h task = pbfPath h0 task)
    by (unfold pbfPath; now rewrite Htd).
  destruct (start_fails run); simpl.
  { split; [now repeat split|]. right. split; [discriminate|].
    now apply not_reached. }
  match goal with
  | |- context [read_lines ?u ?l ?s] =>
      destruct (read_lines u l s) as [h1 e] eqn:Hr;
      destruct (read_lines_keeps _ _ _ _ _ Hr) as (_ & Hfs1 & Hfd1 & Htd1)
  end.
  simpl in Hfs1, Hfd1, Htd1.
  assert (Hk1 : region_kept h1).
  { repeat split; [now rewrite Hfs1 | congruence | congruence]. }
  destruct e as [e|]; simpl.
  { split; [exact Hk1|]. right. split; [discriminate|].
    destruct (read_lines_error _ _ _ _ _ Hr) as [line ->].
    now apply not_reached. }
  assert (Hk2 : region_kept (match artifact run with
                             | Some bytes => set_fs (<[pbfPath h1 task := bytes]>) h1
                             | None => h1
                             end)).
  { destruct (artifact run); [|exact Hk1].
    destruct Hk1 as (Hf1 & ? & ?). repeat split; try assumption. simpl.
    assert (Hp1 : pbfPath h1 task = pbfPath h0 task)
      by (unfold pbfPath; congruence).
    rewrite Hp1. now rewrite lookup_insert_ne by auto. }
  destruct (wait_fails run); simpl; (split; [exact Hk2|]); [|now left].
  right. split; [discriminate|]. now apply not_reached.
Qed.

Lemma finish_region : removes_region (finish run task).
Proof.
  intros h (Hfile & Hfd & Htd). unfold finish.
  assert (Hp : pbfPath h task = pbfPath h0 task)
    by (unfold pbfPath; now rewrite Htd).
  assert (Ha : artifactPath h task = artifactPath h0 task)
    by (unfold artifactPath; now rewrite Hfd).
  assert (Hr : regionPath h task = regionPath h0 task)
    by (unfold regionPath; now rewrite Htd).
  assert (Hc : recordPath h task = recordPath h0 task)
    by (unfold recordPath; now rewrite Hfd).
  assert (Hstop : forall e, e <> ErrMarshalProgress -> e <> ErrWriteRecord ->
            forall files : gmap string string,
            files !! regionPath h0 task = Some content ->
            (Returned (Some e) : ending (option run_error)) <> Panicked
            /\ (reached_cleanup (Returned (Some e)) ->
                files !! regionPath h0 task = None)
            /\ (~ reached_cleanup (Returned (Some e)) ->
                files !! regionPath h0 task = Some content)).
  { intros e H1 H2 files Hfiles. split; [discriminate|]. split; [|easy].
    intros Hr'. exfalso. revert Hr'. now apply not_reached. }
  destruct (fs h !! pbfPath h task) as [pbf|]; simpl; [|now apply Hstop].
  destruct (open_fails run); simpl; [now apply Hstop|].
  destruct (stat_fails run); simpl; [now apply Hstop|].
  destruct (rename_fails run); simpl; [now apply Hstop|].
  destruct (remove_fails run); simpl.
  { apply Hstop; try discriminate. simpl. rewrite Ha, Hp.
    rewrite lookup_insert_ne by auto. now rewrite lookup_delete_ne by auto. }
  change (regionPath (set_fs _ h) task) with (regionPath h task).
  change (recordPath (set_progress _ (set_fs _ (set_fs _ h))) task)
    with (recordPath h task).
  rewrite Hr, Hc.
  assert (Hgone : forall files : gmap string string,
            delete (regionPath h0 task) files !! regionPath h0 task = None)
    by (intros; apply lookup_delete_eq).
  unfold WriteFile_failed.
  destruct (Marshal_Progress _) as [completion|];
    [destruct (record_fails run); [destruct (record_left run)|]|]; simpl;
    (split; [discriminate|]);
    (split; [intros _ | intros Hn; exfalso; apply Hn; unfold reached_cleanup; auto]);
    rewrite ?lookup_insert_ne by auto; apply Hgone.
Qed.

End RegionFile.

(** From its writing to line 171, nothing in a run changes the region file;
    line 171 removes it. *)
Lemma runTask_region_file run task h bytes :
  create_fails run = false -> region_file task = Some bytes ->
  regionPath h task <> echoPath h task ->
  regionPath h task <> pbfPath h task ->
  regionPath h task <> artifactPath h task ->
  regionPath h task <> recordPath h task ->
  snd (runTask run task h) <> Panicked
  /\ (reached_cleanup (snd (runTask run task h)) ->
      fs (fst (runTask run task h)) !! regionPath h task = None)
  /\ (~ reached_cleanup (snd (runTask run task h)) ->
      fs (fst (runTask run task h)) !! regionPath h task
      = Some (written (region_short run) bytes)).
Proof.
  intros Hc Hfile Hecho Hpbf Hart Hrec.
  unfold runTask. unfold and_then at 1. unfold write_region. rewrite Hc, Hfile.
  apply (and_then_region task h (written (region_short run) bytes) _ _
           (write_echo_region run task h _ Hecho)
           (and_then_region task h _ _ _
              (extract_region run task h _ Hpbf)
              (finish_region run task h _ Hpbf Hart Hrec))).
  repeat split. simpl. apply lookup_insert_eq.
Qed.

(** C9: for a task the worker starts, when the region file can be created
    and the write is complete, the file holds the sanitized region payload
    as it is, except for the bbox type, where the brackets around the array
    are dropped and the file holds what they enclose.  These are the
    contents of the file when the tool is launched with its path (once the
    echo of the submission is written too), and they stay until line 171
    removes the file: a run that stops before that line leaves them. *)
Theorem region_file_contents run task h expected :
  create_fails run = false -> region_short run = None ->
  (SanitizedRegionType task <> "bbox" /\ SanitizedRegionData task = expected
   \/ SanitizedRegionType task = "bbox"
      /\ SanitizedRegionData task = "[" ++ expected ++ "]") ->
  regionPath h task <> echoPath h task ->
  regionPath h task <> pbfPath h task ->
  regionPath h task <> artifactPath h task ->
  regionPath h task <> recordPath h task ->
  let result := runTask run task (worker_register task h) in
  (prepared run task = true ->
   exists launched,
     result = and_then (extract run task) (finish run task) launched
     /\ fs launched !! regionPath h task = Some expected
     /\ events (fst result)
        = (events h
           ++ [Exec (exec h) ["extract"; data h; pbfPath h task; "--jsonOutput";
                              "--region"; regionPath h task]])%list)
  /\ snd result <> Panicked
  /\ (reached_cleanup (snd result) -> fs (fst result) !! regionPath h task = None)
  /\ (~ reached_cleanup (snd result) ->
      fs (fst result) !! regionPath h task = Some expected).
Proof.
  intros Hc Hshort Hpayload Hecho Hpbf Hart Hrec result.
  assert (Hfile : region_file task = Some expected).
  { unfold region_file. destruct Hpayload as [[Ht Hd] | [Ht Hd]].
    - destruct (String.eqb_spec (SanitizedRegionType task) "bbox") as [?|_];
        [contradiction | now rewrite Hd].
    - rewrite Ht, Hd. simpl String.eqb. cbv iota. apply slice_brackets. }
  split.
  - intros Hprep.
    destruct (runTask_prepared run task (worker_register task h) Hprep)
      as (bytes & taskJson & Hb & _ & Hrun).
    rewrite Hfile in Hb. injection Hb as <-.
    rewrite Hshort in Hrun. simpl written in Hrun.
    eexists. split; [exact Hrun|]. split.
    + simpl. rewrite lookup_insert_ne by (intros E; apply Hecho; now symmetry).
      apply lookup_insert_eq.
    + subst result. rewrite runTask_events, Hprep. reflexivity.
  - pose proof (runTask_region_file run task (worker_register task h) expected
                  Hc Hfile Hecho Hpbf Hart Hrec) as H.
    rewrite Hshort in H. exact H.
Qed.

(** **** What no schedule changes *)

Lemma step_config h h' :
  step h h' ->
  (filesDir h', tmpDir h', exec h', data h', nodesLimit h')
  = (filesDir h, tmpDir h, exec h, data h, nodesLimit h)
  /\ image h' = image h.
Proof.
  intros Hs. destruct Hs as [task h h' Hsend | | task h h' Hrecv | |
                             run task h h' r Hrun | | o h]; try (now split).
  - unfold chan_send in Hsend. destruct (_ <? _)%Z; [|discriminate].
    injection Hsend as <-. now split.
  - unfold chan_recv in Hrecv. destruct (queue h); [discriminate|].
    injection Hrecv as _ <-. now split.
  - pose proof (runTask_touches run task h) as (_ & _ & _ & Hc & _ & Hi).
    rewrite Hrun in Hc, Hi. now split.
  - unfold refresh. destruct (Qlt_le_dec 10 _); [|now split].
    now destruct (time_Parse _).
Qed.

(** X22: however handlers and workers interleave, the configuration of the
    server (directories, tool, dataset, node limit) and the density raster
    stay what they were at startup. *)
Theorem reachable_config_fixed h h' :
  rtc step h h' ->
  (filesDir h', tmpDir h', exec h', data h', nodesLimit h')
  = (filesDir h, tmpDir h, exec h, data h, nodesLimit h)
  /\ image h' = image h.
Proof.
  induction 1 as [h|h1 h2 h3 Hs _ IH]; [now split|].
  destruct (step_config _ _ Hs) as [Hc Hi]. destruct IH as [Hc' Hi'].
  split; congruence.
Qed.

(** **** A covering without tiles *)


End Server.

End Srv.

(** ** A concrete server

    Integer coordinates, a decoder that knows the few documents used below,
    a covering of one tile per zoom and a raster whose every cell holds 256:
    enough to run the handlers and the worker on explicit inputs. *)

Module Scenario.
Import F64 Estimator Validator Srv.

Local Open Scope string_scope.

Definition triangle : Geometry Z :=
  GPolygon Z [[(0, 0); (1, 1); (1, 0); (0, 0)]]%Z.

(** A ring of three coordinates. *)
Definition wedge : Geometry Z := GPolygon Z [[(0, 0); (1, 1); (0, 0)]]%Z.

(** A body that opens with a bracket is a bbox submission, any other a
    geojson one; the body itself stands for the region payload. *)
Definition Decode_Input (body : string) : option Input :=
  Some {| Name := "a_name";
          RegionType := if String.prefix "[" body then "bbox" else "geojson";
          RegionData := body |}.

Definition UnmarshalGeometry (payload : string) : option (Geometry Z) :=
  if String.eqb payload "triangle" then Some triangle
  else if String.eqb payload "wedge" then Some wedge
  else None.

Definition MarshalJSON (g : Geometry Z) : string := "triangle".

(** The one-digit numbers of a payload, in order. *)
Fixpoint Unmarshal_coords (payload : string) : list Z :=
  match payload with
  | EmptyString => []
  | String c rest =>
      let n := Z.of_nat (nat_of_ascii c) in
      if ((48 <=? n) && (n <=? 57))%Z then (n - 48)%Z :: Unmarshal_coords rest
      else Unmarshal_coords rest
  end.

Definition Format_coord (c : Z) : string :=
  String (ascii_of_nat (Z.to_nat (c + 48))) "".

Definition Marshal_coords (cs : list Z) : string :=
  "[" ++ String.concat "," (map Format_coord cs) ++ "]".

Definition extend (b : Bound Z) (p : Point Z) : Bound Z :=
  {| Min := (Z.min (fst (Min Z b)) (fst p), Z.min (snd (Min Z b)) (snd p));
     Max := (Z.max (fst (Max Z b)) (fst p), Z.max (snd (Max Z b)) (snd p)) |}.

Definition MultiPoint_Bound (ps : list (Point Z)) : Bound Z :=
  match ps with
  | [] => {| Min := (0, 0)%Z; Max := (0, 0)%Z |}
  | p :: _ => fold_left extend ps {| Min := p; Max := p |}
  end.

Definition Area_is_zero (g : Geometry Z) : bool :=
  match g with
  | GBound _ b =>
      ((fst (Max Z b) - fst (Min Z b)) * (snd (Max Z b) - snd (Min Z b)) =? 0)%Z
  | GPolygon _ _ | GMultiPolygon _ _ => false
  | _ => true
  end.

Definition tilecover (g : Geometry Z) (zoom : Z) : list Tile :=
  [{| tX := 0; tY := 0; tZ := Z.to_N zoom |}].

Definition Marshal_Task (task : Task) : option string := Some ("task " ++ Uuid task).

Definition Marshal_Progress (p : Progress) : option string :=
  Some ("done " ++ Timestamp p).

(** A line decodes unless it is empty. *)
Definition Decode_Progress (line : string) : option Progress :=
  if String.eqb line "" then None
  else Some {| Timestamp := line; CellsTotal := 4; CellsProg := 1; NodesTotal := 0;
               NodesProg := 0; ElemsTotal := 0; ElemsProg := 0; SizeBytes := 0;
               Elapsed := 0; Complete := false |}.

Definition time_Parse (s : string) : option Z :=
  if String.eqb s "" then None else Some (Z.of_nat (String.length s)).

Definition time_Format (t : Z) : string := "".
Definition TrimSpace (s : string) : string := s.
Definition imageBytes : string := "png".

(** The directories of the file system. *)
Definition is_dir (path : string) : bool :=
  String.eqb path "/" || String.eqb path "/files" || String.eqb path "/tmp".

Definition server : Server :=
  {| progress := ∅; queue := []; filesDir := "/files"; tmpDir := "/tmp";
     exec := "osmx"; data := "planet.osmx"; image := flat_image;
     nodesLimit := 100000000; lastUpdated := {| timestamp := 0; checkedAt := 0 |};
     fs := ∅; events := [] |}.

Definition oracle : Oracle :=
  {| uuid_New := "0b5e"; now_check := 0; query_output := ""; now_stamp := 0;
     now_status := 0 |}.

Definition task : Task :=
  {| Uuid := "0b5e"; SanitizedName := "a_name"; SanitizedRegionType := "bbox";
     SanitizedRegionData := "[0,0,1,1]" |}.

Definition post (body : string) : Request :=
  {| Method := "POST"; Path := "/"; Body := body |}.

Definition ServeHTTP : Oracle -> Request -> Server -> Server * ending Response :=
  Srv.ServeHTTP Z (Geometry Z) Decode_Input UnmarshalGeometry (fun g => g) MarshalJSON
    Unmarshal_coords Marshal_coords MultiPoint_Bound Area_is_zero tilecover
    time_Parse time_Format TrimSpace imageBytes is_dir.

Definition GET_task : Request -> Server -> Response := Srv.GET_task is_dir.

Definition worker : Run -> Server -> option (Server * ending unit) :=
  Srv.worker Marshal_Task Marshal_Progress Decode_Progress.

Definition runTask : Run -> Task -> Server -> Server * ending (option run_error) :=
  Srv.runTask Marshal_Task Marshal_Progress Decode_Progress.

(** A run in which everything works and the tool prints two lines. *)
Definition good_run : Run :=
  {| create_fails := false; region_short := None; echo_fails := false;
     echo_left := None; start_fails := false;
     stdout_lines := ["t1"; "t2"]; wait_fails := false; artifact := Some "pbf";
     open_fails := false; stat_fails := false; rename_fails := false;
     remove_fails := false;
     record_fails := false; record_left := None; seconds := 3 |}.

(** The tool exits nonzero after one line. *)
Definition nonzero_exit : Run :=
  {| create_fails := false; region_short := None; echo_fails := false;
     echo_left := None; start_fails := false;
     stdout_lines := ["t1"]; wait_fails := true; artifact := None;
     open_fails := false; stat_fails := false; rename_fails := false;
     remove_fails := false;
     record_fails := false; record_left := None; seconds := 3 |}.

(** The tool does not start. *)
Definition no_start : Run :=
  {| create_fails := false; region_short := None; echo_fails := false;
     echo_left := None; start_fails := true;
     stdout_lines := []; wait_fails := false; artifact := None;
     open_fails := false; stat_fails := false; rename_fails := false;
     remove_fails := false;
     record_fails := false; record_left := None; seconds := 3 |}.

(** The second line of the tool does not parse. *)
Definition bad_line : Run :=
  {| create_fails := false; region_short := None; echo_fails := false;
     echo_left := None; start_fails := false;
     stdout_lines := ["t1"; ""; "t3"]; wait_fails := false; artifact := None;
     open_fails := false; stat_fails := false; rename_fails := false;
     remove_fails := false;
     record_fails := false; record_left := None; seconds := 3 |}.

Example POST_unit_bbox :
  exists h, ServeHTTP oracle (post "[0,0,1,1]") server
            = (h, Returned (respond 201 (Text "0b5e")))
            /\ queue h = [task] /\ progress h !! "0b5e" = Some Progress_zero.
Proof. eexists. split; [vm_compute; reflexivity|]. split; reflexivity. Qed.

Definition parseInput : string -> Parsed Z + Validator.error :=
  Validator.parseInput Z (Geometry Z) Decode_Input UnmarshalGeometry (fun g => g)
    MarshalJSON Unmarshal_coords Marshal_coords MultiPoint_Bound Area_is_zero.

Definition POST : Oracle -> Request -> Server -> Server * ending Response :=
  Srv.POST Z (Geometry Z) Decode_Input UnmarshalGeometry (fun g => g) MarshalJSON
    Unmarshal_coords Marshal_coords MultiPoint_Bound Area_is_zero tilecover.

(** The tests of the repository that do not need a JSON parser. *)
Example TestBbox :
  exists g data,
    parseInput "[0,0,1,1]"
    = inl {| geom := g; sanitized_name := "a_name"; sanitized_type := "bbox";
             sanitized_region := data |}.
Proof. eexists. eexists. reflexivity. Qed.

Example TestGeoJSON :
  parseInput "triangle"
  = inl {| geom := triangle; sanitized_name := "a_name"; sanitized_type := "geojson";
           sanitized_region := "triangle" |}.
Proof. reflexivity. Qed.

Lemma parseInput_ring_checks_witness :
  exists e, parseInput "wedge" = inr e
            /\ (e = ErrNotEnoughRings \/ e = ErrNotEnoughCoordinates).
Proof.
  apply (proj1 (parseInput_ring_checks Z (Geometry Z) Decode_Input UnmarshalGeometry
                  (fun g => g) MarshalJSON Unmarshal_coords Marshal_coords
                  MultiPoint_Bound Area_is_zero "wedge"
                  {| Name := "a_name"; RegionType := "geojson"; RegionData := "wedge" |}
                  wedge eq_refl eq_refl eq_refl I)).
  right. apply Exists_cons_hd. unfold short. simpl. lia.
Defined.

Lemma parseInput_bbox_witness :
  parseInput "[1,2,3,4]"
  = inl {| geom := GBound Z {| Min := (2, 1)%Z; Max := (4, 3)%Z |};
           sanitized_name := "a_name"; sanitized_type := "bbox";
           sanitized_region := "[1,2,3,4]" |}.
Proof.
  destruct (proj2 (parseInput_bbox Z (Geometry Z) Decode_Input UnmarshalGeometry
                     (fun g => g) MarshalJSON Unmarshal_coords Marshal_coords
                     MultiPoint_Bound Area_is_zero "[1,2,3,4]"
                     {| Name := "a_name"; RegionType := "bbox";
                        RegionData := "[1,2,3,4]" |}
                     eq_refl eq_refl)
                  ltac:(simpl; lia))
    as (c0 & c1 & c2 & c3 & Hf & _ & Ha).
  injection Hf as <- <- <- <-. exact (Ha eq_refl).
Defined.

Lemma parseInput_area_witness : parseInput "[0,0,0,1]" = inr ErrZeroArea.
Proof.
  apply (proj2 (parseInput_area Z (Geometry Z) Decode_Input UnmarshalGeometry
                  (fun g => g) MarshalJSON Unmarshal_coords Marshal_coords
                  MultiPoint_Bound Area_is_zero "[0,0,0,1]"
                  {| Name := "a_name"; RegionType := "bbox"; RegionData := "[0,0,0,1]" |}
                  (GBound Z {| Min := (0, 0)%Z; Max := (1, 0)%Z |}) "[0,0,0,1]"
                  eq_refl eq_refl)).
  reflexivity.
Defined.







(** *** Runs that fail *)

(** The server once the unit bbox has been accepted: the task waits in the
    buffer and the registry holds its all-zero entry. *)
Definition accepted : Server := fst (ServeHTTP oracle (post "[0,0,1,1]") server).

Definition worker_handle : Run -> Task -> Server -> Server * ending unit :=
  Srv.worker_handle Marshal_Task Marshal_Progress Decode_Progress.

Definition get (path : string) : Request :=
  {| Method := "GET"; Path := path; Body := "" |}.

(** C1, the code on its failing inputs: when the subprocess exits nonzero,
    does not start, or prints a line that does not parse, the worker hands
    the error to Sentry and goes on to the next task; no completion record
    is written under the identifier (the echo of the submission, written
    before the subprocess is launched, stays), but the registry still holds
    the entry of the task, and a status query for it is answered with that
    entry instead of 404. *)
Theorem failed_run_keeps_registry_entry :
  (exists h,
      worker nonzero_exit accepted = Some (h, Returned tt)
      /\ last (events h) = Some (CaptureException ErrWait)
      /\ fs h !! "/files/0b5e" = None
      /\ fs h !! "/files/0b5e_region.json" = Some "task 0b5e"
      /\ progress h !! "0b5e" = Decode_Progress "t1"
      /\ GET_task (get "/api/0b5e") h
         = respond_typed "application/json"
             (JSONProgress (default Progress_zero (Decode_Progress "t1"))))
  /\ (exists h,
         worker no_start accepted = Some (h, Returned tt)
         /\ last (events h) = Some (CaptureException ErrStart)
         /\ fs h !! "/files/0b5e" = None
         /\ fs h !! "/files/0b5e_region.json" = Some "task 0b5e"
         /\ progress h !! "0b5e" = Some Progress_zero
         /\ GET_task (get "/api/0b5e") h
            = respond_typed "application/json" (JSONProgress Progress_zero))
  /\ (exists h,
         worker bad_line accepted = Some (h, Returned tt)
         /\ last (events h) = Some (CaptureException (ErrDecode ""))
         /\ fs h !! "/files/0b5e" = None
         /\ fs h !! "/files/0b5e_region.json" = Some "task 0b5e"
         /\ progress h !! "0b5e" = Decode_Progress "t1"
         /\ GET_task (get "/api/0b5e") h
            = respond_typed "application/json"
                (JSONProgress (default Progress_zero (Decode_Progress "t1")))).
Proof.
  repeat split; eexists;
    (split; [vm_compute; reflexivity|]); repeat split; vm_compute; reflexivity.
Qed.

(** The general statement behind the three runs above. *)
Lemma failed_run_entry_general run t h h1 e :
  Srv.runTask Marshal_Task Marshal_Progress Decode_Progress run t
    (worker_register t h) = (h1, Returned (Some e)) ->
  (e = ErrStart \/ e = ErrWait \/ exists line, e = ErrDecode line) ->
  is_Some (progress (fst (worker_handle run t h)) !! Uuid t).
Proof.
  intros H He.
  apply (worker_failed_entry Marshal_Task Marshal_Progress Decode_Progress
           run t h h1 e H He).
Qed.

(** *** The send and the registration are two steps *)

(** C10, the code on its failing schedule: the handler sends the task
    (line 345) before it writes the registry entry (line 348).  A worker
    that receives the task in between finds no entry for it, and here runs
    the task to completion before the handler writes its all-zero entry:
    the entry then stays next to the completion record, for a task that is
    neither queued nor running, and a status query is answered with it. *)
Theorem registration_after_dequeue :
  exists h1 h2 h3,
    chan_send task server = Some h1
    /\ chan_recv h1 = Some (task, h2)
    /\ progress h2 !! "0b5e" = None
    /\ worker_handle good_run task h2 = (h3, Returned tt)
    /\ progress h3 !! "0b5e" = None
    /\ fs h3 !! "/files/0b5e" = Some "done t2"
    /\ queue (POST_register task h3) = []
    /\ progress (POST_register task h3) !! "0b5e" = Some Progress_zero
    /\ GET_task (get "/api/0b5e") (POST_register task h3)
       = respond_typed "application/json" (JSONProgress Progress_zero).
Proof.
  do 3 eexists.
  split; [vm_compute; reflexivity|].
  split; [vm_compute; reflexivity|].
  split; [reflexivity|].
  split; [vm_compute; reflexivity|].
  repeat split; vm_compute; reflexivity.
Qed.

(** With no other goroutine between the two steps, the task accepted by a
    POST waits in the buffer with an all-zero entry, which a status query
    returns. *)
Example accepted_task_is_registered :
  queue accepted = [task]
  /\ progress accepted !! "0b5e" = Some Progress_zero
  /\ GET_task (get "/api/0b5e") accepted
     = respond_typed "application/json" (JSONProgress Progress_zero).
Proof. repeat split; vm_compute; reflexivity. Qed.

(** *** The lines of a run, and what a run leaves *)

Definition read_lines : string -> list string -> Server -> Server * option run_error :=
  Srv.read_lines Decode_Progress.

Lemma read_lines_last_line_witness :
  progress (fst (read_lines "0b5e" ["t1"; "t2"] server)) !! "0b5e"
  = Decode_Progress "t2".
Proof.
  exact (read_lines_last_line Decode_Progress "0b5e" ["t1"; "t2"] server eq_refl).
Defined.

Lemma read_lines_first_bad_line_witness :
  snd (read_lines "0b5e" ["t1"; ""; "t3"] server) = Some (ErrDecode "").
Proof.
  apply (proj1 (read_lines_first_bad_line Decode_Progress "0b5e" ["t1"] "" ["t3"]
                  server
                  ltac:(constructor; [eexists; reflexivity | constructor])
                  eq_refl)).
Defined.

(** [runTask] with the serializers of this server. *)
Local Abbreviation run_task :=
  (Srv.runTask Marshal_Task Marshal_Progress Decode_Progress).

Lemma good_run_returns :
  run_task good_run task server = (fst (run_task good_run task server), Returned None).
Proof. vm_compute. reflexivity. Qed.

Lemma nonzero_exit_returns :
  run_task nonzero_exit task server
  = (fst (run_task nonzero_exit task server), Returned (Some ErrWait)).
Proof. vm_compute. reflexivity. Qed.

Lemma task_paths :
  regionPath server task <> recordPath server task
  /\ regionPath server task <> artifactPath server task
  /\ pbfPath server task <> recordPath server task.
Proof. repeat split; vm_compute; discriminate. Qed.

Lemma runTask_success_witness :
  exists completion,
    fs (fst (run_task good_run task server)) !! recordPath server task
    = Some completion.
Proof.
  destruct (runTask_success Marshal_Task Marshal_Progress Decode_Progress
              good_run task server (fst (run_task good_run task server))
              good_run_returns (proj1 task_paths) (proj1 (proj2 task_paths)))
    as (pbf & completion & _ & Hrec & _).
  exists completion. exact Hrec.
Defined.

(** The write of the completion record stops after four bytes. *)
Definition record_cut : Run :=
  {| create_fails := false; region_short := None; echo_fails := false;
     echo_left := None; start_fails := false;
     stdout_lines := ["t1"; "t2"]; wait_fails := false; artifact := Some "pbf";
     open_fails := false; stat_fails := false; rename_fails := false;
     remove_fails := false;
     record_fails := true; record_left := Some 4%nat; seconds := 3 |}.

Lemma record_cut_returns :
  run_task record_cut task server
  = (fst (run_task record_cut task server), Returned (Some ErrWriteRecord)).
Proof. vm_compute. reflexivity. Qed.

Lemma runTask_failed_record_witness :
  exists p completion,
    Marshal_Progress p = Some completion /\ Complete p = true
    /\ fs (fst (run_task record_cut task server)) !! recordPath server task
       = Some (substring 0 4 completion).
Proof.
  exact (proj2 (runTask_failed_record Marshal_Task Marshal_Progress Decode_Progress
                  record_cut task server (fst (run_task record_cut task server))
                  ErrWriteRecord record_cut_returns
                  (proj1 task_paths) (proj2 (proj2 task_paths)))
               eq_refl).
Defined.


(** *** Requests that are not submissions, and repeated status queries *)

Lemma GET_changes_nothing_witness :
  queue (fst (ServeHTTP oracle (get "/api") accepted)) = queue accepted.
Proof.
  apply (proj1 (proj2 (GET_changes_nothing Z (Geometry Z) Decode_Input
                         UnmarshalGeometry (fun g => g) MarshalJSON Unmarshal_coords
                         Marshal_coords MultiPoint_Bound Area_is_zero tilecover
                         time_Parse time_Format TrimSpace imageBytes is_dir
                         oracle (get "/api") accepted ltac:(discriminate)))).
Defined.

(** Eleven seconds after the epoch the tool answers; a second later the
    next query arrives. *)
Definition answered : Oracle :=
  {| uuid_New := ""; now_check := 11000000000; query_output := "2024-01-01T00:00:00Z";
     now_stamp := 11000000001; now_status := 11000000002 |}.

Definition unanswered : Oracle :=
  {| uuid_New := ""; now_check := 11000000000; query_output := "";
     now_stamp := 11000000001; now_status := 11000000002 |}.

Definition soon_after : Oracle :=
  {| uuid_New := ""; now_check := 12000000000; query_output := "";
     now_stamp := 12000000001; now_status := 12000000002 |}.

Lemma refresh_then_quiet_witness :
  refresh time_Parse TrimSpace soon_after (refresh time_Parse TrimSpace answered server)
  = refresh time_Parse TrimSpace answered server.
Proof.
  apply (proj1 (refresh_then_quiet time_Parse TrimSpace answered soon_after server 20
                  eq_refl eq_refl ltac:(vm_compute; discriminate))).
Defined.

Lemma refresh_failure_retried_witness :
  events (refresh time_Parse TrimSpace soon_after
            (refresh time_Parse TrimSpace unanswered server))
  = [Exec "osmx" ["query"; "planet.osmx"; "timestamp"];
     Exec "osmx" ["query"; "planet.osmx"; "timestamp"]].
Proof.
  apply (proj2 (refresh_failure_retried time_Parse TrimSpace unanswered soon_after
                  server eq_refl eq_refl ltac:(vm_compute; discriminate))).
Defined.

(** *** Schedules *)

Lemma reachable_queue_bounded_witness :
  (Z.of_nat (length (queue (set_queue [task] server))) <= capacity)%Z.
Proof.
  apply (reachable_queue_bounded Marshal_Task Marshal_Progress Decode_Progress
           time_Parse TrimSpace server (set_queue [task] server)).
  - apply rtc_once. apply (step_send _ _ _ _ _ task). reflexivity.
  - vm_compute. discriminate.
Defined.

(** *** The estimator *)

Lemma flat_image_wf : wf_image flat_image.
Proof. intros x y. simpl. lia. Qed.

(** Two tiles for every zoom, in one order and in the other. *)
Definition tile_a (zoom : Z) : Tile := {| tX := 1; tY := 2; tZ := Z.to_N zoom |}.
Definition tile_b (zoom : Z) : Tile := {| tX := 5; tY := 6; tZ := Z.to_N zoom |}.

Lemma GetSum_order_witness :
  GetSum unit (fun _ zoom => [tile_a zoom; tile_b zoom]) flat_image tt
  = GetSum unit (fun _ zoom => [tile_b zoom; tile_a zoom]) flat_image tt.
Proof.
  apply (proj2 (proj2 (GetSum_order unit
                         (fun _ zoom => [tile_a zoom; tile_b zoom])
                         (fun _ zoom => [tile_b zoom; tile_a zoom])
                         (fun _ zoom => perm_swap (tile_b zoom) (tile_a zoom) [])
                         flat_image tt flat_image_wf
                         ltac:(intros t [<-|[<-|[]]]; reflexivity)
                         ltac:(simpl; lia)))).
Defined.

Lemma GetPixel_children_witness :
  exists p c00 c01 c10 c11,
    GetPixel flat_image 11 3 5 = Some (Finite p)
    /\ GetPixel flat_image 12 6 10 = Some (Finite c00)
    /\ GetPixel flat_image 12 6 11 = Some (Finite c01)
    /\ GetPixel flat_image 12 7 10 = Some (Finite c10)
    /\ GetPixel flat_image 12 7 11 = Some (Finite c11)
    /\ (p == c00 + c01 + c10 + c11)%Q.
Proof.
  exact (GetPixel_children flat_image 11 3 5 ltac:(lia) ltac:(lia) ltac:(lia)).
Defined.

Lemma GetPixel_representable_witness :
  exists f, GetPixel flat_image 14 2620 6331 = Some f /\ representable f.
Proof.
  exact (GetPixel_representable flat_image 14 2620 6331 flat_image_wf
           ltac:(lia) ltac:(lia) ltac:(lia)).
Defined.

Lemma reachable_config_fixed_witness :
  (filesDir accepted, tmpDir accepted, exec accepted, data accepted, nodesLimit accepted)
  = (filesDir server, tmpDir server, exec server, data server, nodesLimit server)
  /\ image accepted = image server.
Proof.
  apply (reachable_config_fixed Marshal_Task Marshal_Progress Decode_Progress
           time_Parse TrimSpace server accepted).
  apply (rtc_l _ _ (set_queue [task] server)).
  - apply (step_send _ _ _ _ _ task). reflexivity.
  - apply rtc_once. apply (step_POST_register _ _ _ _ _ task).
Defined.


(** *** The region file, status queries and task queries through the
    handlers *)

Lemma region_paths :
  regionPath server task <> echoPath server task
  /\ regionPath server task <> pbfPath server task
  /\ regionPath server task <> artifactPath server task
  /\ regionPath server task <> recordPath server task.
Proof. repeat split; vm_compute; discriminate. Qed.

Lemma nonzero_exit_stops :
  ~ reached_cleanup (snd (run_task nonzero_exit task (worker_register task server))).
Proof. intros [H|[H|H]]; vm_compute in H; discriminate H. Qed.

Lemma region_file_contents_witness :
  fs (fst (run_task nonzero_exit task (worker_register task server)))
    !! regionPath server task
  = Some "0,0,1,1".
Proof.
  apply (proj2 (proj2 (proj2
           (region_file_contents Marshal_Task Marshal_Progress Decode_Progress
              nonzero_exit task server "0,0,1,1" eq_refl eq_refl
              (or_intror (conj eq_refl eq_refl))
              (proj1 region_paths) (proj1 (proj2 region_paths))
              (proj1 (proj2 (proj2 region_paths)))
              (proj2 (proj2 (proj2 region_paths))))))).
  exact nonzero_exit_stops.
Defined.

Lemma GET_state_freshness_witness :
  lastUpdated (fst (ServeHTTP answered (get "/api") server))
  = {| timestamp := 20; checkedAt := 11000000001 |}.
Proof.
  apply (proj2 (proj1 (GET_state_freshness Z (Geometry Z) Decode_Input
                         UnmarshalGeometry (fun g => g) MarshalJSON Unmarshal_coords
                         Marshal_coords MultiPoint_Bound Area_is_zero tilecover
                         time_Parse time_Format TrimSpace imageBytes is_dir
                         answered (get "/api") server
                         ltac:(discriminate) (or_introl eq_refl))
                      eq_refl)).
Defined.

(** The identifier [.] names the files directory itself. *)
Lemma GET_task_routing_witness :
  ServeHTTP oracle (get "/api/.") server
  = (server, Returned (respond_typed "application/json" (Bytes ""))).
Proof.
  apply (proj1 (GET_task_routing Z (Geometry Z) Decode_Input
                  UnmarshalGeometry (fun g => g) MarshalJSON Unmarshal_coords
                  Marshal_coords MultiPoint_Bound Area_is_zero tilecover
                  time_Parse time_Format TrimSpace imageBytes is_dir
                  oracle (get "/api/.") server ltac:(discriminate))
               "." eq_refl eq_refl ltac:(discriminate) ltac:(discriminate)).
Defined.

End Scenario.

(** ** Startup: [main]

    [flag.Parse], [os.Getenv] and [png.Decode] are outside the repository:
    [main] is a function of what they return. *)

Module Startup.
Import Estimator Srv.

Local Open Scope string_scope.

(** The flags once parsed, and the positional arguments left over. *)
Record Flags : Type := {
  bindAddress : string;
  flag_filesDir : string;
  flag_exec : string;
  sentryDsn : string;
  flag_nodesLimit : Z;
  Args : list string
}.

(** The defaults of lines 421-425, for a command line without options. *)
Definition default_flags (args : list string) : Flags :=
  {| bindAddress := ":8080"; flag_filesDir := ""; flag_exec := "osmx";
     sentryDsn := ""; flag_nodesLimit := 100000000; Args := args |}.

(** The zero [time.Time]: January 1 of year 1, in nanoseconds from the
    Unix epoch. *)
Definition zero_time : Z := -62135596800 * Second.

(** How [main] ends: [os.Exit] after an error message and the usage, a
    plain return when the raster does not decode, or the server handed to
    [http.ListenAndServe]. *)
Inductive outcome : Type :=
| Exit (status : Z) (message : string)
| DecodeFailed
| Serve (address : string) (sentry : bool) (h : Server).

Definition main (flags : Flags) (TMPDIR : string) (decoded : option Image)
                (files : gmap string string) : outcome :=
  if String.eqb (flag_filesDir flags) "" then
    Exit 2 "Error: missing required option -filesDir"
  else
    let tmpDir := if String.eqb TMPDIR "" then "/tmp" else TMPDIR in
    if negb (length (Args flags) =? 1)%nat then
      Exit 2 "Error: missing required argument OSMX_FILE"
    else
      let data := hd "" (Args flags) in
      match decoded with
      | None => DecodeFailed
      | Some img =>
          let srv := {| progress := ∅; queue := [];
                        filesDir := flag_filesDir flags; tmpDir := tmpDir;
                        exec := flag_exec flags; data := data; image := img;
                        nodesLimit := flag_nodesLimit flags;
                        lastUpdated := {| timestamp := zero_time;
                                          checkedAt := zero_time |};
                        fs := files; events := [] |} in
          Serve (bindAddress flags) (negb (String.eqb (sentryDsn flags) ""))
                (StartWorkers srv)
      end.


Section FirstQuery.

Variable time_Parse : string -> option Z.
Variable time_Format : Z -> string.
Variable TrimSpace : string -> string.

(** X24: the first status query on the server that [main] starts always
    launches the timestamp query: the zero check time is more than 10
    seconds before any clock reading after 1970.  When the output does not
    parse, the cached timestamp stays the zero time and the status is
    "warn". *)
Theorem first_status_query flags TMPDIR decoded files address sentry h o :
  main flags TMPDIR decoded files = Serve address sentry h ->
  (0 <= now_check o)%Z -> (0 <= now_status o)%Z ->
  let h' := fst (GET_state time_Parse time_Format TrimSpace o h) in
  let w := snd (GET_state time_Parse time_Format TrimSpace o h) in
  events h' = [Exec (exec h) ["query"; data h; "timestamp"]]
  /\ (time_Parse (TrimSpace (query_output o)) = None ->
      lastUpdated h' = {| timestamp := zero_time; checkedAt := zero_time |}
      /\ exists st, sent w = JSONState st /\ Status st = "warn"
                    /\ QueueSize st = 0%Z).
Proof.
  intros Hmain Hc Hs h' w.
  assert (Hh : lastUpdated h = {| timestamp := zero_time; checkedAt := zero_time |}
               /\ events h = [] /\ queue h = []).
  { unfold main in Hmain.
    destruct (String.eqb (flag_filesDir flags) ""); [discriminate|].
    destruct (negb _); [discriminate|].
    destruct decoded; [|discriminate]. injection Hmain as _ _ <-. now repeat split. }
  destruct Hh as (Hl & He & Hq).
  assert (Hdue : (10 * Second < now_check o - checkedAt (lastUpdated h))%Z).
  { rewrite Hl. simpl. unfold zero_time, Second. lia. }
  subst h' w. unfold GET_state. simpl fst. simpl snd.
  rewrite (refresh_due time_Parse TrimSpace o h Hdue). cbv zeta. split.
  - destruct (time_Parse (TrimSpace (query_output o))); simpl; now rewrite He.
  - intros Hp. rewrite Hp. simpl. split; [exact Hl|].
    eexists. split; [reflexivity|]. simpl. rewrite Hq. split; [|reflexivity].
    rewrite health_window, Hl. simpl.
    destruct (Z.leb_spec (now_status o - zero_time) (15 * Minute)) as [H|_];
      [|reflexivity].
    unfold zero_time, Minute, Second in H. lia.
Qed.

End FirstQuery.

(** The command line [-filesDir /files planet.osmx], with no [TMPDIR]. *)
Definition typical_flags : Flags :=
  {| bindAddress := ":8080"; flag_filesDir := "/files"; flag_exec := "osmx";
     sentryDsn := ""; flag_nodesLimit := 100000000; Args := ["planet.osmx"] |}.

Definition started : Server :=
  {| progress := ∅; queue := []; filesDir := "/files"; tmpDir := "/tmp";
     exec := "osmx"; data := "planet.osmx"; image := flat_image;
     nodesLimit := 100000000;
     lastUpdated := {| timestamp := zero_time; checkedAt := zero_time |};
     fs := ∅; events := [] |}.

Lemma first_status_query_witness :
  events (fst (GET_state Scenario.time_Parse Scenario.time_Format Scenario.TrimSpace
                 Scenario.unanswered started))
  = [Exec "osmx" ["query"; "planet.osmx"; "timestamp"]].
Proof.
  apply (proj1 (first_status_query Scenario.time_Parse Scenario.time_Format
                  Scenario.TrimSpace typical_flags "" (Some flat_image) ∅
                  ":8080" false started Scenario.unanswered
                  eq_refl ltac:(vm_compute; discriminate)
                  ltac:(vm_compute; discriminate))).
Defined.

End Startup.
